(** * gcode-core: the [block] package

    A shallow embedding of [block/block.go]: the [Block] aggregate, its
    serialisation ([ToLine] and friends), the checksum operations and the
    line parser [Parse], together with the parts of the Go standard library
    ([strconv], [strings], [regexp], [hash]) and of the sibling [gcode]
    packages that [block.go] calls.

    Conventions.
    - A Go [string] is a Rocq [string]: a sequence of bytes ([ascii]).
    - [int32] and [uint32] are [Z]; conversions write the wrap-around out.
    - A Go function returning [(T, error)] returns [result T].
    - A Go call either terminates normally or panics: [outcome].
    - A nil-able interface or pointer field is an [option].
    - [strings.TrimSpace] and [strings.ToUpper] are embedded as Go runs
      them on a line of bytes below 0x80, byte by byte: a byte from 0x80 on
      is left as it is, where Go decodes runes.  The embedding of [Parse]
      is the code on ASCII lines ([is_ascii]). *)

From Stdlib Require Import ZArith NArith List String Ascii Bool Lia.
From Stdlib Require Import DecimalString.
From Stdlib Require DecimalPos DecimalN.
Import ListNotations.

Local Open Scope Z_scope.
Local Open Scope list_scope.

(** ** Results, errors and panics *)

(** Error values.  The text that [fmt.Errorf] builds is kept to the constant
    part of its format string; [%w] wrapping keeps the cause. *)
Inductive error : Type :=
| WordInvalidValueError (value : ascii)
| AddressStringTooShortError (value : string)
| AddressStringContainInvalidCharsError (value : string)
| AddressStringQuoteError (value : string)
| ErrorString (msg : string)
| Wrapped (msg : string) (cause : error).

Inductive result (A : Type) : Type :=
| Ok (a : A)
| Err (e : error).
Arguments Ok {A} a.
Arguments Err {A} e.

Inductive panic : Type :=
| IndexOutOfRange
| NilDereference.

(** [Diverge] is produced only when the fuel handed to the model of a loop
    runs out; [Parse_terminates] shows that [Parse] never produces it. *)
Inductive outcome (A : Type) : Type :=
| Done (a : A)
| Panic (p : panic)
| Diverge.
Arguments Done {A} a.
Arguments Panic {A} p.
Arguments Diverge {A}.

Definition int32 : Type := Z.
Definition uint32 : Type := Z.

(** Go's conversion [uint32(x)] of an [int32] (or of a byte). *)
Definition to_uint32 (x : Z) : uint32 := x mod 2 ^ 32.

Definition byte_val (c : ascii) : Z := Z.of_N (N_of_ascii c).

Definition len (s : string) : Z := Z.of_nat (String.length s).

(** ** Byte-level string operations of Go *)

Module strings.

(** [s[n:]]; [None] is the run-time panic of an out-of-range slice. *)
Fixpoint slice_from (s : string) (n : nat) : option string :=
  match n, s with
  | O, _ => Some s
  | S _, EmptyString => None
  | S n', String _ s' => slice_from s' n'
  end.

(** [s[:n]]. *)
Fixpoint slice_to (s : string) (n : nat) : option string :=
  match n, s with
  | O, _ => Some EmptyString
  | S _, EmptyString => None
  | S n', String c s' =>
      match slice_to s' n' with
      | Some t => Some (String c t)
      | None => None
      end
  end.

(** [s[0]]. *)
Definition byte_at0 (s : string) : option ascii :=
  match s with
  | EmptyString => None
  | String c _ => Some c
  end.

(** [strings.IndexRune(s, r)] for a one-byte rune [r]: the index of the first
    occurrence, or [-1]. *)
Fixpoint IndexRune (s : string) (r : ascii) : Z :=
  match s with
  | EmptyString => -1
  | String c s' =>
      if Ascii.eqb c r then 0
      else let i := IndexRune s' r in
           if i <=? -1 then -1 else i + 1
  end.

(** [strings.Join]: nothing for no element, the element itself for one,
    otherwise the first element followed by [sep ++ e] for every other [e]. *)
Definition Join (elems : list string) (sep : string) : string :=
  match elems with
  | [] => EmptyString
  | [e] => e
  | e :: rest => fold_left (fun b s => b ++ sep ++ s)%string rest e
  end.

(** The bytes [unicode.IsSpace] accepts below 0x80. *)
Definition isSpace (c : ascii) : bool :=
  let n := byte_val c in
  (n =? 9) || (n =? 10) || (n =? 11) || (n =? 12) || (n =? 13) || (n =? 32).

Fixpoint TrimLeft (s : string) : string :=
  match s with
  | EmptyString => EmptyString
  | String c s' => if isSpace c then TrimLeft s' else s
  end.

Fixpoint TrimRight (s : string) : string :=
  match s with
  | EmptyString => EmptyString
  | String c s' =>
      match TrimRight s' with
      | EmptyString => if isSpace c then EmptyString else String c EmptyString
      | t => String c t
      end
  end.

(** [strings.TrimSpace] as Go runs it on a line of bytes below
    [utf8.RuneSelf] (0x80): byte by byte.  On a line with a byte from 0x80 on
    Go decodes runes and also trims the Unicode spaces (U+0085, U+00A0, ...);
    this definition keeps those bytes, so it is the code on ASCII lines
    ([is_ascii]) only. *)
Definition TrimSpace (s : string) : string := TrimRight (TrimLeft s).

Definition upper (c : ascii) : ascii :=
  let n := N_of_ascii c in
  if ((97 <=? n) && (n <=? 122))%N then ascii_of_N (n - 32) else c.

(** [strings.ToUpper] as Go runs it on a line of bytes below
    [utf8.RuneSelf]: the letters a-z are upper-cased byte by byte.  On a
    line with a byte from 0x80 on Go maps runes (non-ASCII letters are
    upper-cased, an invalid byte becomes U+FFFD); this definition keeps
    those bytes, so it is the code on ASCII lines ([is_ascii]) only. *)
Fixpoint ToUpper (s : string) : string :=
  match s with
  | EmptyString => EmptyString
  | String c s' => String (upper c) (ToUpper s')
  end.

End strings.

(** ** [strconv] *)

Module strconv.

Definition is_digit (c : ascii) : bool :=
  (48 <=? byte_val c) && (byte_val c <=? 57).

Definition lower (c : ascii) : ascii :=
  let n := N_of_ascii c in
  if ((65 <=? n) && (n <=? 90))%N then ascii_of_N (n + 32) else c.

Definition is_hex_letter (c : ascii) : bool :=
  (97 <=? byte_val (lower c)) && (byte_val (lower c) <=? 102).

(** The digits of a base-10 [ParseUint]: every byte must be a decimal digit. *)
Fixpoint digits_value (s : string) (acc : Z) : option Z :=
  match s with
  | EmptyString => Some acc
  | String c s' =>
      if is_digit c then digits_value s' (acc * 10 + (byte_val c - 48))
      else None
  end.

Definition ParseUint10 (s : string) : option Z :=
  match s with
  | EmptyString => None
  | _ => digits_value s 0
  end.

(** [strconv.ParseInt(s, 10, 32)]: an optional sign, then decimal digits, the
    value within [-2^31, 2^31 - 1]; [None] stands for a [*NumError] (syntax or
    range). *)
Definition ParseInt (s : string) : option Z :=
  match s with
  | EmptyString => None
  | String c s' =>
      let neg := Ascii.eqb c "-" in
      let body := if Ascii.eqb c "+" || neg then s' else s in
      match ParseUint10 body with
      | None => None
      | Some un =>
          let cutoff := 2 ^ 31 in
          if negb neg && (cutoff <=? un) then None
          else if neg && (cutoff <? un) then None
          else Some (if neg then - un else un)
      end
  end.

(** A [float32]: a finite value [(-1)^neg * mant * 2^exp], an infinity or a
    NaN.  Values are kept exact, so no rounding happens outside
    [round_float32]. *)
Inductive float32 : Type :=
| Finite (neg : bool) (mant : Z) (exp : Z)
| Inf (neg : bool)
| NaN.

(** Nearest integer to [n / d] ([d > 0]), ties to even. *)
Definition round_half_even (n d : Z) : Z :=
  let q := n / d in
  let r := n mod d in
  if 2 * r <? d then q
  else if d <? 2 * r then q + 1
  else if Z.even q then q else q + 1.

(** [n / d] divided by [2^e], as a fraction. *)
Definition scale2 (n d e : Z) : Z * Z :=
  if 0 <=? e then (n, d * 2 ^ e) else (n * 2 ^ (- e), d).

(** [floor (log2 (n / d))] for [n, d > 0]. *)
Definition floor_log2 (n d : Z) : Z :=
  let l := Z.log2 n - Z.log2 d in
  let '(n', d') := scale2 n d l in
  if d' <=? n' then l else l - 1.

(** Round the exact value [n / d >= 0] to the nearest [float32] (24-bit
    significand, least exponent -149, ties to even); [None] when the rounded
    value exceeds the largest finite [float32] (Go's [ErrRange]). *)
Definition round_float32 (neg : bool) (n d : Z) : option float32 :=
  if n =? 0 then Some (Finite neg 0 0)
  else
    let e := Z.max (floor_log2 n d - 23) (-149) in
    let '(n', d') := scale2 n d e in
    let m := round_half_even n' d' in
    let '(m, e) := if m =? 2 ^ 24 then (2 ^ 23, e + 1) else (m, e) in
    if 104 <? e then None else Some (Finite neg m e).

(** The mantissa scan of [readFloat]: digits, at most one dot, underscores
    skipped and remembered.  Returns the mantissa as an integer, the number of
    digits after the dot, whether a digit was seen, whether an underscore was
    seen, and the unread rest. *)
Fixpoint scan_mantissa (hex : bool) (s : string) (mant frac : Z)
         (sawdot sawdigits underscores : bool)
  : Z * Z * bool * bool * string :=
  match s with
  | EmptyString => (mant, frac, sawdigits, underscores, s)
  | String c s' =>
      if Ascii.eqb c "_" then
        scan_mantissa hex s' mant frac sawdot sawdigits true
      else if Ascii.eqb c "." then
        if sawdot then (mant, frac, sawdigits, underscores, s)
        else scan_mantissa hex s' mant frac true sawdigits underscores
      else if is_digit c then
        scan_mantissa hex s' ((if hex then 16 else 10) * mant + (byte_val c - 48))
                      (if sawdot then frac + 1 else frac) sawdot true underscores
      else if hex && is_hex_letter c then
        scan_mantissa hex s' (16 * mant + (byte_val (lower c) - 97 + 10))
                      (if sawdot then frac + 1 else frac) sawdot true underscores
      else (mant, frac, sawdigits, underscores, s)
  end.

(** The exponent digits of [readFloat]: digits and underscores; the value
    stops growing once it has reached 10000. *)
Fixpoint scan_exponent (s : string) (e : Z) (underscores : bool)
  : Z * bool * string :=
  match s with
  | EmptyString => (e, underscores, s)
  | String c s' =>
      if Ascii.eqb c "_" then scan_exponent s' e true
      else if is_digit c then
        scan_exponent s' (if e <? 10000 then e * 10 + (byte_val c - 48) else e)
                      underscores
      else (e, underscores, s)
  end.

(** [underscoreOK]: an underscore only between digits, or between a base
    prefix and a digit.  [saw] is the class of the last byte: [0] a digit or
    base prefix, [1] an underscore, [2] the start, [3] anything else. *)
Fixpoint underscoreOK_from (hex : bool) (s : string) (saw : Z) : bool :=
  match s with
  | EmptyString => negb (saw =? 1)
  | String c s' =>
      if is_digit c || (hex && is_hex_letter c) then underscoreOK_from hex s' 0
      else if Ascii.eqb c "_" then
        if saw =? 0 then underscoreOK_from hex s' 1 else false
      else if saw =? 1 then false
      else underscoreOK_from hex s' 3
  end.

Definition strip_sign (s : string) : bool * string :=
  match s with
  | String c s' =>
      if Ascii.eqb c "+" then (false, s')
      else if Ascii.eqb c "-" then (true, s')
      else (false, s)
  | EmptyString => (false, s)
  end.

Definition base_prefix (s : string) : option ascii :=
  match s with
  | String c0 (String c1 _) =>
      if Ascii.eqb c0 "0"
         && (Ascii.eqb (lower c1) "b" || Ascii.eqb (lower c1) "o"
             || Ascii.eqb (lower c1) "x")
      then Some (lower c1) else None
  | _ => None
  end.

Definition underscoreOK (s : string) : bool :=
  let '(_, s) := strip_sign s in
  match base_prefix s, s with
  | Some p, String _ (String _ s') => underscoreOK_from (Ascii.eqb p "x") s' 0
  | _, _ => underscoreOK_from false s 2
  end.

(** [readFloat] followed by the checks of [ParseFloat]: the whole of [s] must
    be read, and underscores must be well placed.  Returns the sign, whether
    the number is hexadecimal, the integer mantissa and the exponent of 10
    (of 2 for a hexadecimal number). *)
Definition readFloat (s : string) : option (bool * bool * Z * Z) :=
  let '(neg, s1) := strip_sign s in
  let hex :=
    match s1 with
    | String c0 (String c1 (String _ _)) =>
        Ascii.eqb c0 "0" && Ascii.eqb (lower c1) "x"
    | _ => false
    end in
  let s2 := match hex, s1 with
            | true, String _ (String _ t) => t
            | _, _ => s1
            end in
  let '(mant, frac, sawdigits, us, rest) :=
    scan_mantissa hex s2 0 0 false false false in
  let unit := if hex then 4 else 1 in
  let finish (e : Z) (us : bool) (rest : string) :=
    match rest with
    | EmptyString =>
        if us && negb (underscoreOK s) then None
        else Some (neg, hex, mant, e - unit * frac)
    | String _ _ => None
    end in
  if negb sawdigits then None
  else
    match rest with
    | String c rest1 =>
        if Ascii.eqb (lower c) (if hex then "p" else "e")%char then
          match rest1 with
          | EmptyString => None
          | String c2 rest2 =>
              let '(esign, rest3) :=
                if Ascii.eqb c2 "+" then (1, rest2)
                else if Ascii.eqb c2 "-" then (-1, rest2)
                else (1, rest1) in
              match rest3 with
              | String c3 _ =>
                  if is_digit c3 then
                    let '(e, us', rest4) := scan_exponent rest3 0 us in
                    finish (e * esign) us' rest4
                  else None
              | EmptyString => None
              end
          end
        else None
    | EmptyString => if hex then None else finish 0 us rest
    end.

(** [special]: the spellings of the infinities and of NaN, in any case. *)
Definition special (s : string) : option float32 :=
  let fix lower_all (s : string) : string :=
    match s with
    | EmptyString => EmptyString
    | String c s' => String (lower c) (lower_all s')
    end in
  let '(neg, body) := strip_sign s in
  let body := lower_all body in
  if String.eqb body "inf" || String.eqb body "infinity" then Some (Inf neg)
  else if String.eqb (lower_all s) "nan" then Some NaN
  else None.

(** [strconv.ParseFloat(s, 32)]; [None] stands for a [*NumError]. *)
Definition ParseFloat (s : string) : option float32 :=
  match special s with
  | Some f => Some f
  | None =>
      match readFloat s with
      | None => None
      | Some (neg, hex, mant, e) =>
          let b := if hex then 2 else 10 in
          if 0 <=? e then round_float32 neg (mant * b ^ e) 1
          else round_float32 neg mant (b ^ (- e))
      end
  end.

(** Decimal digits of a natural number. *)
Definition FormatUint (n : Z) : string :=
  NilZero.string_of_uint (N.to_uint (Z.to_N n)).

(** [%d] of a signed integer. *)
Definition FormatInt (n : Z) : string :=
  if n <? 0 then String "-" (FormatUint (- n)) else FormatUint n.

(** [%.1f] of a [float32]: the exact value rounded to one fractional digit,
    ties to even. *)
Definition FormatFloat1 (x : float32) : string :=
  match x with
  | NaN => "NaN"
  | Inf neg => if neg then "-Inf" else "+Inf"
  | Finite neg m e =>
      let '(n, d) := scale2 m 1 (- e) in
      let t := round_half_even (10 * n) d in
      ((if neg then "-" else EmptyString) ++ FormatUint (t / 10) ++ "."
         ++ FormatUint (t mod 10))%string
  end.

End strconv.

(** ** [regexp], as used by [block.go] *)

Module regexp.

(** The class [\s] of Go's regular expressions: tab, newline, form feed,
    carriage return and space. *)
Definition is_class_s (c : ascii) : bool :=
  let n := byte_val c in
  (n =? 9) || (n =? 10) || (n =? 12) || (n =? 13) || (n =? 32).

(** The current run of [\s] bytes while scanning: none, exactly one (kept),
    or at least two (a match of [\s{2,}]). *)
Inductive run : Type :=
| NoRun
| One (c : ascii)
| Many.

Definition flush (r : run) (k : string) : string :=
  match r with
  | NoRun => k
  | One c => String c k
  | Many => String " " k
  end.

(** [regexp.MustCompile(`\s{2,}`).ReplaceAllString(s, " ")]: every maximal
    run of two or more [\s] bytes becomes one space. *)
Fixpoint replace_runs (s : string) (r : run) : string :=
  match s with
  | EmptyString => flush r EmptyString
  | String c s' =>
      if is_class_s c then
        replace_runs s' (match r with NoRun => One c | _ => Many end)
      else flush r (String c (replace_runs s' NoRun))
  end.

(** [regexp.MustCompile(`[\n\t\r]`).ReplaceAllString(s, " ")]. *)
Fixpoint replace_controls (s : string) : string :=
  match s with
  | EmptyString => EmptyString
  | String c s' =>
      let n := byte_val c in
      String (if (n =? 10) || (n =? 9) || (n =? 13) then " "%char else c)
             (replace_controls s')
  end.

End regexp.

(** ** The [gcode] packages: words, addresses, gcodes and their factory *)

Module gcode.

(** Modelled from the spec: the [word] package is not among the sources.  A
    word is a single byte and is valid when it is one of [A]..[Z] or [*]. *)
Definition IsValidWord (w : ascii) : bool :=
  ((65 <=? byte_val w) && (byte_val w <=? 90)) || (byte_val w =? 42).

Definition quote : ascii := ascii_of_nat 34.

Definition is_control (c : ascii) : bool :=
  (byte_val c =? 9) || (byte_val c =? 13) || (byte_val c =? 10).

(** The states of the quoted-string grammar. *)
Inductive quote_state : Type :=
| Start
| InQuote
| SawQuote.

(** Modelled from the spec: the [address] package is not among the sources.
    The quoted-string grammar as the spec's state machine: an opening quote,
    then bytes other than tab, CR and LF, every interior quote doubled, and a
    closing quote at the end of the input.  [whole] is the text reported in
    the error. *)
Fixpoint scan_quoted (whole : string) (st : quote_state) (s : string)
  : option error :=
  match s with
  | EmptyString =>
      match st with
      | SawQuote => None
      | _ => Some (AddressStringQuoteError whole)
      end
  | String c s' =>
      match st with
      | Start =>
          if Ascii.eqb c quote then scan_quoted whole InQuote s'
          else Some (AddressStringQuoteError whole)
      | InQuote =>
          if Ascii.eqb c quote then scan_quoted whole SawQuote s'
          else if is_control c
               then Some (AddressStringContainInvalidCharsError whole)
               else scan_quoted whole InQuote s'
      | SawQuote =>
          if Ascii.eqb c quote then scan_quoted whole InQuote s'
          else Some (AddressStringQuoteError whole)
      end
  end.

(** Modelled from the spec: validity of a quoted-string address, at least two
    bytes long and accepted by [scan_quoted]. *)
Definition IsAddressStringValid (s : string) : option error :=
  if len s <? 2 then Some (AddressStringTooShortError s)
  else scan_quoted s Start s.

(** [AddresableGcoder[T]]: a word with an address of type [T]. *)
Record AddresableGcoder (T : Type) : Type := mkAddressable {
  Word : ascii;
  Address : T
}.
Arguments mkAddressable {T} _ _.
Arguments Word {T} _.
Arguments Address {T} _.

(** [Gcoder]: what the interface can hold, by the dynamic type of the value
    (a type assertion to [AddresableGcoder[int32]] succeeds exactly on
    [AddressableInt32]). *)
Inductive Gcoder : Type :=
| Unaddressable (w : ascii)
| AddressableInt32 (g : AddresableGcoder int32)
| AddressableUint32 (g : AddresableGcoder uint32)
| AddressableFloat32 (g : AddresableGcoder strconv.float32)
| AddressableString (g : AddresableGcoder string).

Definition GcoderWord (g : Gcoder) : ascii :=
  match g with
  | Unaddressable w => w
  | AddressableInt32 g => Word g
  | AddressableUint32 g => Word g
  | AddressableFloat32 g => Word g
  | AddressableString g => Word g
  end.

Definition HasAddress (g : Gcoder) : bool :=
  match g with
  | Unaddressable _ => false
  | _ => true
  end.

(** Modelled from the spec: the canonical text of a gcode is its word followed
    by the canonical text of its address: decimal digits for the integers, one
    fractional digit for a float, the quoted text itself for a string. *)
Definition AddressableString_ {T : Type} (format : T -> string)
           (g : AddresableGcoder T) : string :=
  String (Word g) (format (Address g)).

Definition Uint32String (g : AddresableGcoder uint32) : string :=
  AddressableString_ strconv.FormatUint g.

Definition GcoderString (g : Gcoder) : string :=
  match g with
  | Unaddressable w => String w EmptyString
  | AddressableInt32 g => AddressableString_ strconv.FormatInt g
  | AddressableUint32 g => Uint32String g
  | AddressableFloat32 g => AddressableString_ strconv.FormatFloat1 g
  | AddressableString g => AddressableString_ (fun s => s) g
  end.

(** Modelled from the spec: [Compare] is structural equality of word and
    address. *)
Definition Compare (a b : AddresableGcoder uint32) : bool :=
  Ascii.eqb (Word a) (Word b) && (Address a =? Address b).

(** [GcoderFactory]: one constructor per shape of gcode. *)
Record GcoderFactory : Type := mkFactory {
  NewUnaddressableGcode : ascii -> result Gcoder;
  NewAddressableGcodeUint32 : ascii -> uint32 -> result (AddresableGcoder uint32);
  NewAddressableGcodeInt32 : ascii -> int32 -> result (AddresableGcoder int32);
  NewAddressableGcodeFloat32 :
    ascii -> strconv.float32 -> result (AddresableGcoder strconv.float32);
  NewAddressableGcodeString : ascii -> string -> result (AddresableGcoder string)
}.

End gcode.

(** Modelled from the spec: [block/internal/gcodefactory] is not among the
    sources.  Its factory builds each shape after validating the word, and a
    string address after validating the quoted-string grammar too. *)
Module gcodefactory.

Definition new_addressable {T : Type} (w : ascii) (a : T)
  : result (gcode.AddresableGcoder T) :=
  if gcode.IsValidWord w then Ok (gcode.mkAddressable w a)
  else Err (WordInvalidValueError w).

Definition GcodeFactory : gcode.GcoderFactory :=
  {| gcode.NewUnaddressableGcode := fun w =>
       if gcode.IsValidWord w then Ok (gcode.Unaddressable w)
       else Err (WordInvalidValueError w);
     gcode.NewAddressableGcodeUint32 := new_addressable;
     gcode.NewAddressableGcodeInt32 := new_addressable;
     gcode.NewAddressableGcodeFloat32 := new_addressable;
     gcode.NewAddressableGcodeString := fun w a =>
       if gcode.IsValidWord w then
         match gcode.IsAddressStringValid a with
         | Some e => Err e
         | None => Ok (gcode.mkAddressable w a)
         end
       else Err (WordInvalidValueError w) |}.

End gcodefactory.

(** ** [hash.Hash] *)

Module hash.

(** A hash engine: its accumulator, and the three operations [block.go]
    calls.  [Reset] puts the accumulator back to [initial]; [Write] may fail;
    [Sum(nil)] reads the digest without changing the accumulator. *)
Record Hash : Type := mkHash {
  state : Type;
  initial : state;
  current : state;
  write : state -> string -> state * option error;
  sum : state -> string
}.

Definition Reset (h : Hash) : Hash :=
  mkHash (state h) (initial h) (initial h) (write h) (sum h).

Definition Write (h : Hash) (p : string) : Hash * option error :=
  let '(st, err) := write h (current h) p in
  (mkHash (state h) (initial h) st (write h) (sum h), err).

Definition Sum (h : Hash) : string := sum h (current h).

End hash.

(** ** The [Block] aggregate *)

(** [BLOCK_SEPARATOR] separates the sections of a block exported as a line. *)
Definition BLOCK_SEPARATOR : string := " ".

Record Block : Type := mkBlock {
  lineNumber : option (gcode.AddresableGcoder uint32);
  command : option gcode.Gcoder;
  parameters : list gcode.Gcoder;
  checksum : option (gcode.AddresableGcoder uint32);
  comment : string;
  hash : option hash.Hash;
  gcodeFactory : option gcode.GcoderFactory
}.

Definition with_hash (b : Block) (h : option hash.Hash) : Block :=
  mkBlock (lineNumber b) (command b) (parameters b) (checksum b) (comment b)
          h (gcodeFactory b).

Definition with_gcodeFactory (b : Block) (f : option gcode.GcoderFactory)
  : Block :=
  mkBlock (lineNumber b) (command b) (parameters b) (checksum b) (comment b)
          (hash b) f.

Definition with_checksum (b : Block)
           (c : option (gcode.AddresableGcoder uint32)) : Block :=
  mkBlock (lineNumber b) (command b) (parameters b) c (comment b)
          (hash b) (gcodeFactory b).

(** [ToLine]: the line number, the command and the parameters, each appended
    to [values] when present, then joined. *)
Definition ToLine (b : Block) : string :=
  let values := [] in
  let values :=
    match lineNumber b with
    | Some ln => values ++ [gcode.Uint32String ln]
    | None => values
    end in
  let values :=
    match command b with
    | Some c => values ++ [gcode.GcoderString c]
    | None => values
    end in
  let values :=
    fold_left (fun values g => values ++ [gcode.GcoderString g])
              (parameters b) values in
  strings.Join values BLOCK_SEPARATOR.

Definition ToLineWithCheck (b : Block) : string :=
  let line := ToLine b in
  match checksum b with
  | Some c => strings.Join [line; gcode.Uint32String c] BLOCK_SEPARATOR
  | None => line
  end.

Definition ToLineWithCheckAndComments (b : Block) : string :=
  let line := ToLineWithCheck b in
  if 0 <? len (comment b)
  then strings.Join [line; comment b] BLOCK_SEPARATOR
  else line.

(** The method [String] of [Block]. *)
Definition BlockString (b : Block) : string := ToLineWithCheckAndComments b.

(** [CalculateChecksum].  The hash engine is mutated, so the block is
    returned with the result.  Calling a method of a nil [hash] or
    [gcodeFactory], and indexing an empty digest, panic. *)
Definition CalculateChecksum (b : Block)
  : outcome (result (gcode.AddresableGcoder uint32) * Block) :=
  match hash b with
  | None => Panic NilDereference
  | Some h =>
      let h := hash.Reset h in
      let '(h, err) := hash.Write h (ToLine b) in
      let b := with_hash b (Some h) in
      match err with
      | Some err =>
          Done (Err (Wrapped "failed to calculate hash to block" err), b)
      | None =>
          match strings.byte_at0 (hash.Sum h) with
          | None => Panic IndexOutOfRange
          | Some digest0 =>
              match gcodeFactory b with
              | None => Panic NilDereference
              | Some f =>
                  match gcode.NewAddressableGcodeUint32
                          f "*" (to_uint32 (byte_val digest0)) with
                  | Err err =>
                      Done (Err (Wrapped
                        "failed to create checksum gcode instance with hash"
                        err), b)
                  | Ok gc => Done (Ok gc, b)
                  end
              end
          end
      end
  end.

Definition UpdateChecksum (b : Block) : outcome (result unit * Block) :=
  match CalculateChecksum b with
  | Done (Err err, b) =>
      Done (Err (Wrapped "failed update checksum of the block" err), b)
  | Done (Ok gc, b) => Done (Ok tt, with_checksum b (Some gc))
  | Panic p => Panic p
  | Diverge => Diverge
  end.

Definition VerifyChecksum (b : Block) : outcome (result bool * Block) :=
  match checksum b with
  | None => Done (Err (ErrorString "the block hasn't check section"), b)
  | Some _ =>
      match CalculateChecksum b with
      | Done (Err err, b) =>
          Done (Err (Wrapped
            "failed to calculate hash to the control of the checksum of the block"
            err), b)
      | Done (Ok gc, b) =>
          match checksum b with
          | Some c => Done (Ok (gcode.Compare c gc), b)
          | None => Panic NilDereference
          end
      | Panic p => Panic p
      | Diverge => Diverge
      end
  end.

Definition Comment (b : Block) : string := comment b.

Definition setChecksum (b : Block) (checksum : option hash.Hash)
  : result Block :=
  match checksum with
  | None => Err (ErrorString "checksum nil should not be stored in block")
  | Some h => Ok (with_hash b (Some h))
  end.

Definition setGcodeFactory (b : Block)
           (gcodeFactory : option gcode.GcoderFactory) : result Block :=
  match gcodeFactory with
  | None => Err (ErrorString "gcodeFactory nil should not be stored in block")
  | Some f => Ok (with_gcodeFactory b (Some f))
  end.

(** ** The constructor [New] *)

(** Modelled from the spec: the configuration half of the builder
    ([BlockConfigurationParameter] and its setters) is not among the sources.
    A staged action sets the line number, the parameters, the checksum, the
    comment, the hash engine or the factory of the block under construction. *)
Inductive configurationCallback : Type :=
| lineNumberAction (ln : gcode.AddresableGcoder uint32)
| parametersAction (ps : list gcode.Gcoder)
| checksumAction (c : gcode.AddresableGcoder uint32)
| commentAction (s : string)
| hashAction (h : option hash.Hash)
| gcodeFactoryAction (f : option gcode.GcoderFactory).

(** Modelled from the spec: what a staged action does to the block.  The hash
    engine and the factory go through [setChecksum] and [setGcodeFactory] of
    [block.go]. *)
Definition run_action (a : configurationCallback) (b : Block) : result Block :=
  match a with
  | lineNumberAction ln =>
      Ok (mkBlock (Some ln) (command b) (parameters b) (checksum b)
                  (comment b) (hash b) (gcodeFactory b))
  | parametersAction ps =>
      Ok (mkBlock (lineNumber b) (command b) ps (checksum b)
                  (comment b) (hash b) (gcodeFactory b))
  | checksumAction c => Ok (with_checksum b (Some c))
  | commentAction s =>
      Ok (mkBlock (lineNumber b) (command b) (parameters b) (checksum b)
                  s (hash b) (gcodeFactory b))
  | hashAction h => setChecksum b h
  | gcodeFactoryAction f => setGcodeFactory b f
  end.

Record BlockConfigurationParameter : Type := mkConfig {
  configurationCallbacks : list configurationCallback
}.

(** An option of [New]: it stages actions in the configuration, or fails. *)
Definition BlockConfigurerCallback : Type :=
  BlockConfigurationParameter -> result BlockConfigurationParameter.

(** Modelled from the spec: a setter rejects an absent argument at once,
    otherwise stages its action. *)
Definition stage {A : Type} (what : string) (mk : A -> configurationCallback)
           (arg : option A) : BlockConfigurerCallback :=
  fun config =>
    match arg with
    | None => Err (ErrorString what)
    | Some a => Ok (mkConfig (configurationCallbacks config ++ [mk a]))
    end.

Definition SetLineNumber := stage "lineNumber" lineNumberAction.
Definition SetParameters := stage "parameters" parametersAction.
Definition SetChecksum := stage "checksum" checksumAction.
Definition SetHash := stage "hash" (fun h => hashAction (Some h)).
Definition SetGcodeFactory :=
  stage "gcodeFactory" (fun f => gcodeFactoryAction (Some f)).
Definition SetComment (s : string) : BlockConfigurerCallback :=
  stage "comment" commentAction (Some s).

(** The inner loop of [New]: every staged action is applied to [b]. *)
Fixpoint New_actions (actions : list configurationCallback) (b : Block)
  : result Block :=
  match actions with
  | [] => Ok b
  | action :: rest =>
      match run_action action b with
      | Err err => Err (Wrapped "failed to process configuration" err)
      | Ok b => New_actions rest b
      end
  end.

(** The outer loop of [New]: each option is invoked on the one configuration,
    then all the actions staged so far are applied. *)
Fixpoint New_options (options : list BlockConfigurerCallback)
         (config : BlockConfigurationParameter) (b : Block) : result Block :=
  match options with
  | [] => Ok b
  | option :: rest =>
      match option config with
      | Err err => Err (Wrapped "couldn't apply configuration" err)
      | Ok config =>
          match New_actions (configurationCallbacks config) b with
          | Err err => Err err
          | Ok b => New_options rest config b
          end
      end
  end.

(** [New].  (The progress lines it prints are not modelled.) *)
Definition New (command : option gcode.Gcoder)
           (options : list BlockConfigurerCallback) : result Block :=
  match command with
  | None => Err (ErrorString "command parameter is required")
  | Some c =>
      let b := mkBlock None (Some c) [] None EmptyString None None in
      let config := mkConfig [] in
      New_options options config b
  end.

(** ** Preparing the source line *)

Definition removeDuplicateSpaces (s : string) : string :=
  regexp.replace_runs s regexp.NoRun.

Definition removeSpecialChars (s : string) : string :=
  regexp.replace_controls s.

Definition prepareSourceToParse (s : string) : string :=
  let s := strings.TrimSpace s in
  let s := strings.ToUpper s in
  let s := removeDuplicateSpaces s in
  let s := removeSpecialChars s in
  s.

(** ** [Parse] *)

(** Go's conversion [int32(x)] of an [int64]. *)
Definition to_int32 (x : Z) : int32 := (x + 2 ^ 31) mod 2 ^ 32 - 2 ^ 31.

(** How the token loop of [Parse] ends: [break loop] with the gcodes read so
    far, [return nil, err], or a run-time panic. *)
Inductive loop_exit : Type :=
| LoopBreak (gcodes : list gcode.Gcoder)
| LoopReturn (err : error)
| LoopPanic (p : panic).

Definition separator : ascii := " ".

(** An index or slice expression: out of range, it panics. *)
Notation "'checked' x <- e ; k" :=
  (match e with
   | Some x => k
   | None => Some (LoopPanic IndexOutOfRange)
   end)
  (at level 10, x name, e at level 100, k at level 200, only parsing).

(** The loop of [Parse], one iteration per unit of [fuel].  [gcodes] and [i]
    are the variables of the same names; [advance] is the common tail of the
    four branches that append a gcode: stop when no separator was found,
    otherwise drop the token read and go round again. *)
Fixpoint Parse_loop (fuel : nat) (gcodeFactory : gcode.GcoderFactory)
         (pblock : string) (gcodes : list gcode.Gcoder) (i : Z)
  : option loop_exit :=
  match fuel with
  | O => None
  | S fuel =>
      if i <=? -1 then Some (LoopBreak gcodes)
      else if len pblock =? 0 then Some (LoopBreak gcodes)
      else
        let i := strings.IndexRune pblock separator in
        if i =? 0 then
          checked pblock <- strings.slice_from pblock 1 ;
          Parse_loop fuel gcodeFactory pblock gcodes i
        else
          checked pgcode <-
            (if i <=? -1 then Some pblock
             else strings.slice_to pblock (Z.to_nat i)) ;
          checked pword <- strings.byte_at0 pgcode ;
          checked paddress <-
            (if 1 <? len pgcode then strings.slice_from pgcode 1
             else Some EmptyString) ;
          let advance (gcodes : list gcode.Gcoder) :=
            if i <=? -1 then Some (LoopBreak gcodes)
            else
              checked pblock <- strings.slice_from pblock (Z.to_nat i) ;
              Parse_loop fuel gcodeFactory pblock gcodes i in
          if 1 <? len pgcode then
            match strconv.ParseInt paddress with
            | Some valueInt =>
                match gcode.NewAddressableGcodeInt32
                        gcodeFactory pword (to_int32 valueInt) with
                | Err err => Some (LoopReturn err)
                | Ok gca => advance (gcodes ++ [gcode.AddressableInt32 gca])
                end
            | None =>
                match strconv.ParseFloat paddress with
                | Some valueFloat =>
                    match gcode.NewAddressableGcodeFloat32
                            gcodeFactory pword valueFloat with
                    | Err err => Some (LoopReturn err)
                    | Ok gca =>
                        advance (gcodes ++ [gcode.AddressableFloat32 gca])
                    end
                | None =>
                    match gcode.NewAddressableGcodeString
                            gcodeFactory pword paddress with
                    | Err err => Some (LoopReturn err)
                    | Ok gca =>
                        advance (gcodes ++ [gcode.AddressableString gca])
                    end
                end
            end
          else
            match gcode.NewUnaddressableGcode gcodeFactory pword with
            | Err err => Some (LoopReturn err)
            | Ok gc => advance (gcodes ++ [gc])
            end
  end.

(** The type assertion [g.(gcode.AddresableGcoder[int32])]. *)
Definition asAddresableInt32 (g : gcode.Gcoder)
  : option (gcode.AddresableGcoder int32) :=
  match g with
  | gcode.AddressableInt32 ln2 => Some ln2
  | _ => None
  end.

(** [ln, _ = gcodeFactory.NewAddressableGcodeUint32('N', uint32(ln2.Address()))]:
    the error is dropped, and a failed construction leaves [ln] nil. *)
Definition convertLineNumber (gcodeFactory : gcode.GcoderFactory)
           (ln2 : gcode.AddresableGcoder int32)
  : option (gcode.AddresableGcoder uint32) :=
  match gcode.NewAddressableGcodeUint32
          gcodeFactory "N" (to_uint32 (gcode.Address ln2)) with
  | Ok ln => Some ln
  | Err _ => None
  end.

(** The second half of [Parse]: the gcodes read are classified as line
    number, command and parameters.  [gcodes[0]] and [gcodes[1]] panic when
    out of range.  In the second branch the error message ends with the
    operands of [%v %v]: [ok], which is false there, and [gcodes[0]], printed
    by its [String] method. *)
Definition Parse_assemble (gcodes : list gcode.Gcoder)
           (checksum : option hash.Hash) (gcodeFactory : gcode.GcoderFactory)
  : outcome (result Block) :=
  if (List.length gcodes =? 1)%nat then
    match nth_error gcodes 0 with
    | None => Panic IndexOutOfRange
    | Some g0 =>
        if Ascii.eqb (gcode.GcoderWord g0) "N" then
          match asAddresableInt32 g0 with
          | None =>
              Done (Err (ErrorString
                "line number gcode found, but it was not possible to parse it"))
          | Some ln2 =>
              let ln := convertLineNumber gcodeFactory ln2 in
              Done (Ok (mkBlock ln None [] None EmptyString
                                checksum (Some gcodeFactory)))
          end
        else
          Done (Ok (mkBlock None (Some g0) [] None EmptyString
                            checksum (Some gcodeFactory)))
    end
  else
    match nth_error gcodes 0 with
    | None => Panic IndexOutOfRange
    | Some g0 =>
        if Ascii.eqb (gcode.GcoderWord g0) "N" then
          match asAddresableInt32 g0 with
          | None =>
              Done (Err (ErrorString
                ("line number gcode found, but it was not possible to parse it: "
                 ++ "false" ++ " " ++ gcode.GcoderString g0)))
          | Some ln2 =>
              let ln := convertLineNumber gcodeFactory ln2 in
              match nth_error gcodes 1 with
              | None => Panic IndexOutOfRange
              | Some g1 =>
                  Done (Ok (mkBlock ln (Some g1) (skipn 2 gcodes) None
                                    EmptyString checksum (Some gcodeFactory)))
              end
          end
        else
          Done (Ok (mkBlock None (Some g0) (skipn 1 gcodes) None EmptyString
                            checksum (Some gcodeFactory)))
    end.

(** [Parse].  A nil factory is replaced by the package's own; the loop gets
    one unit of fuel per byte of the prepared line, and one more. *)
Definition Parse (s : string) (checksum : option hash.Hash)
           (gcodeFactory : option gcode.GcoderFactory)
  : outcome (result Block) :=
  let pblock := prepareSourceToParse s in
  let gcodeFactory :=
    match gcodeFactory with
    | None => gcodefactory.GcodeFactory
    | Some f => f
    end in
  match Parse_loop (S (String.length pblock)) gcodeFactory pblock [] 0 with
  | None => Diverge
  | Some (LoopPanic p) => Panic p
  | Some (LoopReturn err) => Done (Err err)
  | Some (LoopBreak gcodes) => Parse_assemble gcodes checksum gcodeFactory
  end.

Definition factory_or_default (gcodeFactory : option gcode.GcoderFactory)
  : gcode.GcoderFactory :=
  match gcodeFactory with
  | None => gcodefactory.GcodeFactory
  | Some f => f
  end.

(** The gcodes the loop of [Parse] reads from the line [s]. *)
Definition Parse_gcodes (s : string)
           (gcodeFactory : option gcode.GcoderFactory) : option loop_exit :=
  let pblock := prepareSourceToParse s in
  Parse_loop (S (String.length pblock)) (factory_or_default gcodeFactory)
             pblock [] 0.

(** ** Hash engines *)

Module checksum.

Fixpoint fold_bytes (step : Z -> Z -> Z) (p : string) (acc : Z) : Z :=
  match p with
  | EmptyString => acc
  | String c p' => fold_bytes step p' (step acc (byte_val c))
  end.

Definition one_byte_engine (step : Z -> Z -> Z) : hash.Hash :=
  hash.mkHash Z 0 0
    (fun st p => (fold_bytes step p st, None))
    (fun st => String (ascii_of_N (Z.to_N st)) EmptyString).

(** Modelled from the spec: the [checksum] package is not among the sources.
    The spec's reference engine adds the bytes written modulo 256 and has a
    one-byte digest. *)
Definition sum8 : hash.Hash :=
  one_byte_engine (fun acc b => (acc + b) mod 256).

(** The one-byte engine that folds the bytes written with exclusive-or (the
    line checksum of RepRap firmware).  It is the engine under which the
    expected value of the repository's test [TestGcodeblogk_Calculate]
    comes out. *)
Definition xor8 : hash.Hash :=
  one_byte_engine Z.lxor.

End checksum.

(** ** The parser as the specification words it *)

(** Split on single spaces. *)
Fixpoint split_spaces (s : string) : list string :=
  match s with
  | EmptyString => [EmptyString]
  | String c s' =>
      if Ascii.eqb c separator then EmptyString :: split_spaces s'
      else match split_spaces s' with
           | t :: ts => String c t :: ts
           | [] => [String c EmptyString]
           end
  end.

(** A token: its word byte and the remainder after it. *)
Definition token : Type := (ascii * string)%type.

(** Drop the empty fields; split each other field into word and remainder. *)
Fixpoint tokens_of (fields : list string) : list token :=
  match fields with
  | [] => []
  | EmptyString :: fields => tokens_of fields
  | String w remainder :: fields => (w, remainder) :: tokens_of fields
  end.

Definition tokens_spec (pblock : string) : list token :=
  tokens_of (split_spaces pblock).

Definition result_map {A B : Type} (f : A -> B) (r : result A) : result B :=
  match r with
  | Ok a => Ok (f a)
  | Err e => Err e
  end.

(** Type sniffing of one token: an empty remainder gives an unaddressable
    gcode; otherwise int32 first, then float32, then the quoted string; the
    first parse that succeeds decides, and the factory builds the gcode. *)
Definition sniff_spec (f : gcode.GcoderFactory) (t : token)
  : result gcode.Gcoder :=
  let '(w, remainder) := t in
  match remainder with
  | EmptyString => gcode.NewUnaddressableGcode f w
  | _ =>
      match strconv.ParseInt remainder with
      | Some v =>
          result_map gcode.AddressableInt32
                     (gcode.NewAddressableGcodeInt32 f w v)
      | None =>
          match strconv.ParseFloat remainder with
          | Some x =>
              result_map gcode.AddressableFloat32
                         (gcode.NewAddressableGcodeFloat32 f w x)
          | None =>
              result_map gcode.AddressableString
                         (gcode.NewAddressableGcodeString f w remainder)
          end
      end
  end.

(** Every token sniffed in order; the first factory failure aborts. *)
Fixpoint sniff_all (f : gcode.GcoderFactory) (ts : list token)
  : result (list gcode.Gcoder) :=
  match ts with
  | [] => Ok []
  | t :: ts =>
      match sniff_spec f t with
      | Err e => Err e
      | Ok g => result_map (cons g) (sniff_all f ts)
      end
  end.

(** The error of a first gcode of word [N] that is no int32 gcode: the bare
    message when it is the only gcode, the message with its operands when
    others follow. *)
Definition lineNumberError (g0 : gcode.Gcoder) (rest : list gcode.Gcoder)
  : error :=
  match rest with
  | [] =>
      ErrorString
        "line number gcode found, but it was not possible to parse it"
  | _ :: _ =>
      ErrorString
        ("line number gcode found, but it was not possible to parse it: false "
         ++ gcode.GcoderString g0)
  end.

(** Normalise, tokenise, sniff every token, classify. *)
Definition Parse_spec (s : string) (checksum : option hash.Hash)
           (gcodeFactory : option gcode.GcoderFactory)
  : outcome (result Block) :=
  let f := factory_or_default gcodeFactory in
  match sniff_all f (tokens_spec (prepareSourceToParse s)) with
  | Err e => Done (Err e)
  | Ok gcodes => Parse_assemble gcodes checksum f
  end.

(** The sections [ToLine] exports: the line number if present, the command if
    present, the parameters in order. *)
Definition sections_spec (b : Block) : list string :=
  match lineNumber b with Some ln => [gcode.Uint32String ln] | None => [] end
  ++ match command b with Some c => [gcode.GcoderString c] | None => [] end
  ++ map gcode.GcoderString (parameters b).

(** [line] extended by [section] with the separator of the block. *)
Definition extend_spec (line section : string) : string :=
  (line ++ BLOCK_SEPARATOR ++ section)%string.

(** The checksum value an operation returned, if it returned one. *)
Definition checksum_value
           (r : outcome (result (gcode.AddresableGcoder uint32) * Block))
  : option uint32 :=
  match r with
  | Done (Ok gc, _) => Some (gcode.Address gc)
  | _ => None
  end.

(** What a call returned, without the block it left behind. *)
Definition returned {A : Type} (o : outcome (A * Block)) : outcome A :=
  match o with
  | Done (a, _) => Done a
  | Panic p => Panic p
  | Diverge => Diverge
  end.

(** The write error and the digest of a freshly reset engine fed [p]. *)
Definition digest_of (h : hash.Hash) (p : string) : option error * string :=
  let '(st, err) := hash.write h (hash.initial h) p in
  (err, hash.sum h st).

(** How the loop of [Parse] ends once every token is sniffed: the gcodes are
    appended to those read before, or the first error is returned. *)
Definition loop_exit_spec (gcodes : list gcode.Gcoder)
           (r : result (list gcode.Gcoder)) : loop_exit :=
  match r with
  | Ok gs => LoopBreak (gcodes ++ gs)
  | Err e => LoopReturn e
  end.

(** ** Sample values *)

Definition G92 : gcode.Gcoder :=
  gcode.AddressableInt32 (gcode.mkAddressable "G"%char 92).

Definition N4_G92 : Block :=
  mkBlock (Some (gcode.mkAddressable "N"%char 4)) (Some G92) [] None
          EmptyString None (Some gcodefactory.GcodeFactory).

Definition N_minus5 : gcode.AddresableGcoder int32 :=
  gcode.mkAddressable "N"%char (-5).

Definition G1 : gcode.Gcoder :=
  gcode.AddressableInt32 (gcode.mkAddressable "G"%char 1).

Definition E0 : gcode.Gcoder :=
  gcode.AddressableInt32 (gcode.mkAddressable "E"%char 0).

Definition star67 : gcode.AddresableGcoder uint32 :=
  gcode.mkAddressable "*"%char 67.

(** The line of the repository's checksum test, and the block it parses to
    (2.0 is [2^23 * 2^-22], 3000.0 is [12288000 * 2^-12]). *)
Definition reference_line : string := "N7 G1 X2.0 Y2.0 F3000.0".

Definition reference_block (h : hash.Hash) : Block :=
  mkBlock (Some (gcode.mkAddressable "N"%char 7)) (Some G1)
          [gcode.AddressableFloat32
             (gcode.mkAddressable "X"%char (strconv.Finite false 8388608 (-22)));
           gcode.AddressableFloat32
             (gcode.mkAddressable "Y"%char (strconv.Finite false 8388608 (-22)));
           gcode.AddressableFloat32
             (gcode.mkAddressable "F"%char (strconv.Finite false 12288000 (-12)))]
          None EmptyString (Some h) (Some gcodefactory.GcodeFactory).

(** A factory with a stricter word policy: letters only, no [*]. *)
Definition letters_only (w : ascii) : bool :=
  (65 <=? byte_val w) && (byte_val w <=? 90).

Definition new_lettered {T : Type} (w : ascii) (a : T)
  : result (gcode.AddresableGcoder T) :=
  if letters_only w then Ok (gcode.mkAddressable w a)
  else Err (WordInvalidValueError w).

Definition lettersFactory : gcode.GcoderFactory :=
  gcode.mkFactory
    (fun w => if letters_only w then Ok (gcode.Unaddressable w)
              else Err (WordInvalidValueError w))
    new_lettered new_lettered new_lettered new_lettered.

Definition star85 : gcode.AddresableGcoder uint32 :=
  gcode.mkAddressable "*"%char 85.

(** The exclusive-or engine after a reset and a write of [p]. *)
Definition xor8_after (p : string) : hash.Hash :=
  fst (hash.Write (hash.Reset checksum.xor8) p).

(** ** Shapes of strings *)

(** Every byte of [s] satisfies [p]. *)
Fixpoint all_bytes (p : ascii -> bool) (s : string) : bool :=
  match s with
  | EmptyString => true
  | String c s' => p c && all_bytes p s'
  end.

Definition is_lower (c : ascii) : bool :=
  (97 <=? byte_val c) && (byte_val c <=? 122).

(** A line of bytes below [utf8.RuneSelf] only.  On such a line
    [strings.TrimSpace] and [strings.ToUpper] of Go take their byte-wise
    paths, which are the ones embedded above. *)
Definition is_ascii (s : string) : bool :=
  all_bytes (fun c => byte_val c <? 128) s.

(** The bytes [removeSpecialChars] replaces: newline, tab, carriage return. *)
Definition is_special (c : ascii) : bool :=
  (byte_val c =? 10) || (byte_val c =? 9) || (byte_val c =? 13).

Definition is_separator (c : ascii) : bool := Ascii.eqb c separator.

(** A byte that can stand in a prepared line. *)
Definition prepared_byte (c : ascii) : bool :=
  negb (is_special c) && negb (is_lower c).

(** No byte of the class [p] stands first, last or next to another one;
    [prev] tells whether the place before [s] counts as such a byte (the
    start of the line does). *)
Fixpoint tight (p : ascii -> bool) (s : string) (prev : bool) : bool :=
  match s with
  | EmptyString => negb prev
  | String c s' =>
      if p c then negb prev && tight p s' true else tight p s' false
  end.

(** The line is empty, or no separator stands first, last or doubled. *)
Definition well_separated (s : string) : bool :=
  match s with
  | EmptyString => true
  | _ => tight is_separator s true
  end.

(** The first, respectively last, byte exists and is outside the class. *)
Definition first_not (p : ascii -> bool) (s : string) : bool :=
  match s with
  | EmptyString => false
  | String c _ => negb (p c)
  end.

Fixpoint last_not (p : ascii -> bool) (s : string) : bool :=
  match s with
  | EmptyString => false
  | String c EmptyString => negb (p c)
  | String _ s' => last_not p s'
  end.

(** The bytes of a pending run belong to the class [p]. *)
Definition run_bytes (p : ascii -> bool) (r : regexp.run) : bool :=
  match r with
  | regexp.One c => p c
  | _ => true
  end.

(** ** What the staged actions of [New] amount to *)

(** The option that stages one action, as a setter called with a present
    argument does. *)
Definition stage_one (a : configurationCallback) : BlockConfigurerCallback :=
  fun config => Ok (mkConfig (configurationCallbacks config ++ [a])).

(** The last value staged for each field, if any. *)
Record staged : Type := mkStaged {
  st_lineNumber : option (gcode.AddresableGcoder uint32);
  st_parameters : option (list gcode.Gcoder);
  st_checksum : option (gcode.AddresableGcoder uint32);
  st_comment : option string;
  st_hash : option hash.Hash;
  st_gcodeFactory : option gcode.GcoderFactory
}.

Definition nothing_staged : staged := mkStaged None None None None None None.

(** One more action: its field is overwritten; a nil hash engine or factory
    is the error of [setChecksum], respectively [setGcodeFactory]. *)
Definition stage_action (a : configurationCallback) (o : staged)
  : result staged :=
  match a with
  | lineNumberAction ln =>
      Ok (mkStaged (Some ln) (st_parameters o) (st_checksum o) (st_comment o)
                   (st_hash o) (st_gcodeFactory o))
  | parametersAction ps =>
      Ok (mkStaged (st_lineNumber o) (Some ps) (st_checksum o) (st_comment o)
                   (st_hash o) (st_gcodeFactory o))
  | checksumAction c =>
      Ok (mkStaged (st_lineNumber o) (st_parameters o) (Some c) (st_comment o)
                   (st_hash o) (st_gcodeFactory o))
  | commentAction s =>
      Ok (mkStaged (st_lineNumber o) (st_parameters o) (st_checksum o) (Some s)
                   (st_hash o) (st_gcodeFactory o))
  | hashAction (Some h) =>
      Ok (mkStaged (st_lineNumber o) (st_parameters o) (st_checksum o)
                   (st_comment o) (Some h) (st_gcodeFactory o))
  | hashAction None =>
      Err (ErrorString "checksum nil should not be stored in block")
  | gcodeFactoryAction (Some f) =>
      Ok (mkStaged (st_lineNumber o) (st_parameters o) (st_checksum o)
                   (st_comment o) (st_hash o) (Some f))
  | gcodeFactoryAction None =>
      Err (ErrorString "gcodeFactory nil should not be stored in block")
  end.

Fixpoint stage_all (actions : list configurationCallback) (o : staged)
  : result staged :=
  match actions with
  | [] => Ok o
  | a :: rest =>
      match stage_action a o with
      | Err err => Err (Wrapped "failed to process configuration" err)
      | Ok o => stage_all rest o
      end
  end.

(** The block [b] with every staged value in its field. *)
Definition settle (o : staged) (b : Block) : Block :=
  mkBlock (match st_lineNumber o with Some ln => Some ln | None => lineNumber b end)
          (command b)
          (match st_parameters o with Some ps => ps | None => parameters b end)
          (match st_checksum o with Some c => Some c | None => checksum b end)
          (match st_comment o with Some s => s | None => comment b end)
          (match st_hash o with Some h => Some h | None => hash b end)
          (match st_gcodeFactory o with Some f => Some f | None => gcodeFactory b end).

(** The block [New] starts from. *)
Definition bare_block (c : gcode.Gcoder) : Block :=
  mkBlock None (Some c) [] None EmptyString None None.

(** ** Plain gcodes *)

(** A byte that is neither white space nor a lower-case letter. *)
Definition clean_byte (c : ascii) : bool :=
  negb (strings.isSpace c) && negb (is_lower c).

(** The value of a decimal numeral, digit by digit, as [digits_value] reads
    its text. *)
Fixpoint uint_value (d : Decimal.uint) (acc : Z) : Z :=
  match d with
  | Decimal.Nil => acc
  | Decimal.D0 d => uint_value d (acc * 10 + 0)
  | Decimal.D1 d => uint_value d (acc * 10 + 1)
  | Decimal.D2 d => uint_value d (acc * 10 + 2)
  | Decimal.D3 d => uint_value d (acc * 10 + 3)
  | Decimal.D4 d => uint_value d (acc * 10 + 4)
  | Decimal.D5 d => uint_value d (acc * 10 + 5)
  | Decimal.D6 d => uint_value d (acc * 10 + 6)
  | Decimal.D7 d => uint_value d (acc * 10 + 7)
  | Decimal.D8 d => uint_value d (acc * 10 + 8)
  | Decimal.D9 d => uint_value d (acc * 10 + 9)
  end.

(** A gcode without address, or with an int32 address, under a valid word. *)
Definition plain_gcode (g : gcode.Gcoder) : bool :=
  match g with
  | gcode.Unaddressable w => gcode.IsValidWord w
  | gcode.AddressableInt32 g =>
      gcode.IsValidWord (gcode.Word g)
      && (- 2 ^ 31 <=? gcode.Address g) && (gcode.Address g <=? 2 ^ 31 - 1)
  | _ => false
  end.

(** A line number of word [N] that an int32 can hold. *)
Definition plain_lineNumber (ln : gcode.AddresableGcoder uint32) : bool :=
  Ascii.eqb (gcode.Word ln) "N"
  && (0 <=? gcode.Address ln) && (gcode.Address ln <=? 2 ^ 31 - 1).

(** The sections of a block of plain gcodes as [Parse] can build them: a
    line number alone, or a command (not of word [N] when it comes first)
    and its parameters. *)
Definition plain_sections (ln : option (gcode.AddresableGcoder uint32))
           (cmd : option gcode.Gcoder) (ps : list gcode.Gcoder) : bool :=
  match ln, cmd with
  | Some l, Some c =>
      plain_lineNumber l && plain_gcode c && forallb plain_gcode ps
  | Some l, None =>
      plain_lineNumber l && match ps with [] => true | _ => false end
  | None, Some c =>
      negb (Ascii.eqb (gcode.GcoderWord c) "N")
      && plain_gcode c && forallb plain_gcode ps
  | None, None => false
  end.

Definition token_text (t : token) : string := String (fst t) (snd t).

(** The token a gcode is written as: its word and the text of its address. *)
Definition gcode_token (g : gcode.Gcoder) : token :=
  match g with
  | gcode.Unaddressable w => (w, EmptyString)
  | gcode.AddressableInt32 g =>
      (gcode.Word g, strconv.FormatInt (gcode.Address g))
  | gcode.AddressableUint32 g =>
      (gcode.Word g, strconv.FormatUint (gcode.Address g))
  | gcode.AddressableFloat32 g =>
      (gcode.Word g, strconv.FormatFloat1 (gcode.Address g))
  | gcode.AddressableString g => (gcode.Word g, gcode.Address g)
  end.

Definition clean_token (t : token) : bool :=
  clean_byte (fst t) && all_bytes clean_byte (snd t).

(** The gcodes a re-parse of the exported line reads: the line number as an
    int32 gcode, then the command and the parameters. *)
Definition gcodes_of (ln : option (gcode.AddresableGcoder uint32))
           (cmd : option gcode.Gcoder) (ps : list gcode.Gcoder)
  : list gcode.Gcoder :=
  match ln with
  | Some l =>
      [gcode.AddressableInt32
         (gcode.mkAddressable (gcode.Word l) (gcode.Address l))]
  | None => []
  end
  ++ match cmd with Some c => [c] | None => [] end
  ++ ps.

(** A byte a token can hold: no special byte, no lower-case letter, no
    separator. *)
Definition token_byte (c : ascii) : bool :=
  prepared_byte c && negb (is_separator c).

(** The bytes of a string address satisfy [p]; other gcodes have none. *)
Definition string_address_bytes (p : ascii -> bool) (g : gcode.Gcoder)
  : bool :=
  match g with
  | gcode.AddressableString a => all_bytes p (gcode.Address a)
  | _ => true
  end.

(** The gcodes of a block after the line number. *)
Definition gcodes_after_lineNumber (b : Block) : list gcode.Gcoder :=
  match command b with Some c => [c] | None => [] end ++ parameters b.

(** * Properties *)

(** ** Strings *)

Lemma len_nonneg : forall s, 0 <= len s.
Proof. intro s. unfold len. lia. Qed.

Lemma len_cons : forall c s, len (String c s) = len s + 1.
Proof. intros c s. unfold len. simpl String.length. lia. Qed.

Lemma len_one_ltb : forall c t,
  (1 <? len (String c t)) = match t with EmptyString => false | _ => true end.
Proof.
  intros c [|c' t].
  - reflexivity.
  - rewrite !len_cons. apply Z.ltb_lt. pose proof (len_nonneg t). lia.
Qed.

(** What [IndexRune] finds, against [split_spaces]: no separator and the
    string is one field, or the first field ends where the index points. *)
Lemma IndexRune_split : forall s,
  (strings.IndexRune s separator = -1 /\ split_spaces s = [s])
  \/ exists n pre post,
       strings.IndexRune s separator = Z.of_nat n
       /\ strings.slice_to s n = Some pre
       /\ strings.slice_from s n = Some (String separator post)
       /\ split_spaces s = pre :: split_spaces post
       /\ String.length s = S (n + String.length post).
Proof.
  induction s as [|c s IH].
  - left. split; reflexivity.
  - simpl strings.IndexRune. simpl split_spaces.
    destruct (Ascii.eqb c separator) eqn:Hc.
    + apply Ascii.eqb_eq in Hc. subst c.
      right. exists 0%nat, EmptyString, s. repeat split; reflexivity.
    + destruct IH as [[Hi Hs] | (n & pre & post & Hi & Hto & Hfrom & Hs & Hlen)].
      * left. rewrite Hi, Hs. split; reflexivity.
      * right. exists (S n), (String c pre), post.
        rewrite Hi, Hs. simpl. rewrite Hto, Hfrom, Hlen.
        repeat split; try reflexivity.
        destruct (Z.of_nat n <=? -1) eqn:E; [apply Z.leb_le in E; lia | lia].
Qed.

(** ** [strconv.ParseInt] *)

Lemma byte_val_range : forall c, 0 <= byte_val c < 256.
Proof.
  intro c. unfold byte_val.
  pose proof (N_ascii_bounded c). lia.
Qed.

Lemma digits_value_nonneg : forall s acc v,
  strconv.digits_value s acc = Some v -> 0 <= acc -> 0 <= v.
Proof.
  induction s as [|c s IH]; simpl; intros acc v H Hacc.
  - injection H as <-. exact Hacc.
  - destruct (strconv.is_digit c) eqn:Hd; [|discriminate].
    apply IH in H; [exact H|].
    unfold strconv.is_digit in Hd.
    apply andb_true_iff in Hd. destruct Hd as [Hlo _].
    apply Z.leb_le in Hlo. lia.
Qed.

Lemma ParseUint10_nonneg : forall s v,
  strconv.ParseUint10 s = Some v -> 0 <= v.
Proof.
  intros [|c s] v H; [discriminate|].
  apply digits_value_nonneg in H; [exact H | lia].
Qed.

(** A successful [ParseInt(s, 10, 32)] is an [int32]. *)
Lemma ParseInt_range : forall s v,
  strconv.ParseInt s = Some v -> - 2 ^ 31 <= v <= 2 ^ 31 - 1.
Proof.
  intros [|c s] v H; [discriminate|].
  unfold strconv.ParseInt in H.
  destruct (strconv.ParseUint10 _) as [un|] eqn:Hun; [|discriminate].
  apply ParseUint10_nonneg in Hun.
  destruct (Ascii.eqb c "-"); cbn [negb andb] in H.
  - destruct (2 ^ 31 <? un) eqn:E; [discriminate|].
    apply Z.ltb_ge in E. injection H as <-. lia.
  - destruct (2 ^ 31 <=? un) eqn:E; [discriminate|].
    apply Z.leb_gt in E. injection H as <-. lia.
Qed.

Lemma to_int32_id : forall v,
  - 2 ^ 31 <= v <= 2 ^ 31 - 1 -> to_int32 v = v.
Proof.
  intros v Hv. unfold to_int32.
  rewrite Z.mod_small; lia.
Qed.

Lemma to_int32_ParseInt : forall s v,
  strconv.ParseInt s = Some v -> to_int32 v = v.
Proof. intros s v H. apply to_int32_id. eapply ParseInt_range; eauto. Qed.

(** ** The loop of [Parse] against the tokens *)

Lemma loop_exit_spec_cons : forall gcodes g r,
  loop_exit_spec (gcodes ++ [g]) r = loop_exit_spec gcodes (result_map (cons g) r).
Proof.
  intros gcodes g [gs|e]; simpl; [|reflexivity].
  now rewrite <- app_assoc.
Qed.

Lemma tokens_spec_leading_separator : forall s,
  tokens_spec (String separator s) = tokens_spec s.
Proof. reflexivity. Qed.

Lemma Parse_loop_spec : forall fuel f pblock gcodes i,
  (String.length pblock < fuel)%nat -> -1 < i ->
  Parse_loop fuel f pblock gcodes i
  = Some (loop_exit_spec gcodes (sniff_all f (tokens_spec pblock))).
Proof.
  induction fuel as [|fuel IH]; intros f pblock gcodes i Hfuel Hi; [lia|].
  cbn [Parse_loop].
  destruct (i <=? -1) eqn:Ei; [apply Z.leb_le in Ei; lia|]. clear Ei.
  destruct pblock as [|c s].
  { simpl. now rewrite app_nil_r. }
  replace (len (String c s) =? 0) with false
    by (symmetry; apply Z.eqb_neq; rewrite len_cons; pose proof (len_nonneg s); lia).
  destruct (IndexRune_split (String c s))
    as [[Hidx Hsplit] | (n & pre & post & Hidx & Hto & Hfrom & Hsplit & Hlen)].
  - (* the last token *)
    rewrite Hidx.
    change (-1 =? 0) with false. change (-1 <=? -1) with true.
    cbn [strings.byte_at0].
    unfold tokens_spec. rewrite Hsplit. cbn [tokens_of sniff_all sniff_spec].
    rewrite len_one_ltb.
    destruct s as [|c' s'].
    + destruct (gcode.NewUnaddressableGcode f c); simpl; reflexivity.
    + cbn [strings.slice_from].
      destruct (strconv.ParseInt (String c' s')) as [v|] eqn:Hint.
      * rewrite (to_int32_ParseInt _ _ Hint).
        destruct (gcode.NewAddressableGcodeInt32 f c v); reflexivity.
      * destruct (strconv.ParseFloat (String c' s')) as [x|].
        -- destruct (gcode.NewAddressableGcodeFloat32 f c x); reflexivity.
        -- destruct (gcode.NewAddressableGcodeString f c (String c' s'));
             reflexivity.
  - rewrite Hidx. unfold tokens_spec. rewrite Hsplit.
    destruct n as [|n].
    + (* a leading separator is dropped *)
      cbn [Z.of_nat Z.eqb].
      cbn in Hfrom, Hto. injection Hfrom as -> ->. injection Hto as <-.
      cbn [strings.slice_from tokens_of].
      destruct post; (apply IH; simpl in Hfuel |- *; lia).
    + (* a token, then the rest of the line *)
      assert (Hpos : 0 < Z.of_nat (S n)) by lia.
      replace (Z.of_nat (S n) =? 0) with false by (symmetry; apply Z.eqb_neq; lia).
      replace (Z.of_nat (S n) <=? -1) with false by (symmetry; apply Z.leb_gt; lia).
      rewrite Nat2Z.id, Hto, Hfrom.
      cbn in Hto. destruct (strings.slice_to s n) as [pre'|]; [|discriminate].
      injection Hto as <-.
      cbn [strings.byte_at0 tokens_of sniff_all sniff_spec].
      rewrite len_one_ltb.
      assert (Hrest : forall gcodes',
        Parse_loop fuel f (String separator post) gcodes' (Z.of_nat (S n))
        = Some (loop_exit_spec gcodes' (sniff_all f (tokens_of (split_spaces post))))).
      { intro gcodes'. rewrite IH; [reflexivity| |lia].
        simpl in Hlen, Hfuel |- *. lia. }
      destruct pre' as [|c' s'].
      * destruct (gcode.NewUnaddressableGcode f c); simpl; [|reflexivity].
        rewrite Hrest. now rewrite loop_exit_spec_cons.
      * cbn [strings.slice_from].
        destruct (strconv.ParseInt (String c' s')) as [v|] eqn:Hint.
        -- rewrite (to_int32_ParseInt _ _ Hint).
           destruct (gcode.NewAddressableGcodeInt32 f c v); simpl; [|reflexivity].
           rewrite Hrest. now rewrite loop_exit_spec_cons.
        -- destruct (strconv.ParseFloat (String c' s')) as [x|].
           ++ destruct (gcode.NewAddressableGcodeFloat32 f c x); simpl; [|reflexivity].
              rewrite Hrest. now rewrite loop_exit_spec_cons.
           ++ destruct (gcode.NewAddressableGcodeString f c (String c' s'));
                simpl; [|reflexivity].
              rewrite Hrest. now rewrite loop_exit_spec_cons.
Qed.

Lemma Parse_gcodes_spec : forall s gcodeFactory,
  Parse_gcodes s gcodeFactory
  = Some (loop_exit_spec []
            (sniff_all (factory_or_default gcodeFactory)
                       (tokens_spec (prepareSourceToParse s)))).
Proof.
  intros s gcodeFactory. unfold Parse_gcodes.
  apply Parse_loop_spec; lia.
Qed.

(** The loop of [Parse] never runs out of fuel and never panics. *)
Lemma Parse_loop_fuel : forall s gcodeFactory,
  exists r, Parse_gcodes s gcodeFactory = Some (loop_exit_spec [] r).
Proof. intros. eexists. apply Parse_gcodes_spec. Qed.

Lemma Parse_unfold : forall s checksum gcodeFactory,
  Parse s checksum gcodeFactory
  = match Parse_gcodes s gcodeFactory with
    | None => Diverge
    | Some (LoopPanic p) => Panic p
    | Some (LoopReturn err) => Done (Err err)
    | Some (LoopBreak gcodes) =>
        Parse_assemble gcodes checksum (factory_or_default gcodeFactory)
    end.
Proof. intros s checksum [f|]; reflexivity. Qed.

Lemma Parse_refines_spec : forall s checksum gcodeFactory,
  Parse s checksum gcodeFactory = Parse_spec s checksum gcodeFactory.
Proof.
  intros s checksum gcodeFactory.
  rewrite Parse_unfold, Parse_gcodes_spec. unfold Parse_spec.
  destruct (sniff_all _ _); reflexivity.
Qed.

(** A digit string within the int32 range parses as that integer. *)
Lemma ParseInt_digits : forall d v,
  strconv.ParseUint10 d = Some v -> v < 2 ^ 31 ->
  strconv.ParseInt d = Some v.
Proof.
  intros [|c d] v H Hv; [discriminate|].
  unfold strconv.ParseInt.
  assert (Hd : strconv.is_digit c = true).
  { simpl in H. destruct (strconv.is_digit c); [reflexivity|discriminate]. }
  assert (Hsign : Ascii.eqb c "+" = false /\ Ascii.eqb c "-" = false).
  { unfold strconv.is_digit in Hd. apply andb_true_iff in Hd.
    destruct Hd as [Hlo _]. apply Z.leb_le in Hlo.
    split; apply Ascii.eqb_neq; intros ->; vm_compute in Hlo; congruence. }
  destruct Hsign as [-> ->]. cbn [orb negb andb]. rewrite H.
  replace (2 ^ 31 <=? v) with false by (symmetry; apply Z.leb_gt; lia).
  reflexivity.
Qed.

(** A digit string beyond the int32 range is refused by [ParseInt]. *)
Lemma ParseInt_digits_overflow : forall d v,
  strconv.ParseUint10 d = Some v -> 2 ^ 31 <= v ->
  strconv.ParseInt d = None.
Proof.
  intros [|c d] v H Hv; [discriminate|].
  unfold strconv.ParseInt.
  assert (Hd : strconv.is_digit c = true).
  { simpl in H. destruct (strconv.is_digit c); [reflexivity|discriminate]. }
  assert (Hsign : Ascii.eqb c "+" = false /\ Ascii.eqb c "-" = false).
  { unfold strconv.is_digit in Hd. apply andb_true_iff in Hd.
    destruct Hd as [Hlo _]. apply Z.leb_le in Hlo.
    split; apply Ascii.eqb_neq; intros ->; vm_compute in Hlo; congruence. }
  destruct Hsign as [-> ->]. cbn [orb negb andb]. rewrite H.
  replace (2 ^ 31 <=? v) with true by (symmetry; apply Z.leb_le; lia).
  reflexivity.
Qed.

(** C1, counterexample. The bare digit string [2147483648] does not parse as
    an int32 address: it is beyond [ParseInt(_, 10, 32)], the float attempt
    succeeds, and the gcode is a float32 one. *)
Lemma Parse_digits_beyond_int32_are_float :
  Parse "G2147483648" None None
  = Done (Ok (mkBlock None
                (Some (gcode.AddressableFloat32
                         (gcode.mkAddressable
                            "G"%char (strconv.Finite false 8388608 8))))
                [] None EmptyString None (Some gcodefactory.GcodeFactory))).
Proof. reflexivity. Qed.

(** C1, amended. Every token of the line is type-sniffed: [Parse] is the
    normalise / tokenise / sniff / classify pipeline of [Parse_spec], where a
    token with an empty remainder becomes an unaddressable gcode and any other
    token is tried as an int32, then as a float32, then as a quoted string,
    the first success deciding.  In particular the remainder [3], and any bare
    digit string whose value fits an int32, goes to the int32 constructor of
    the factory with its value, whatever the word and the factory, and never
    reaches the string constructor; a bare digit string beyond the int32 range
    goes to the float attempt. *)
Theorem Parse_type_sniffing :
  forall (s : string) (checksum : option hash.Hash)
         (gcodeFactory : option gcode.GcoderFactory),
    Parse s checksum gcodeFactory = Parse_spec s checksum gcodeFactory
    /\ (forall f w,
          sniff_spec f (w, "3"%string)
          = result_map gcode.AddressableInt32
                       (gcode.NewAddressableGcodeInt32 f w 3))
    /\ (forall f w d v,
          strconv.ParseUint10 d = Some v -> v < 2 ^ 31 ->
          sniff_spec f (w, d)
          = result_map gcode.AddressableInt32
                       (gcode.NewAddressableGcodeInt32 f w v))
    /\ (forall f w d v,
          strconv.ParseUint10 d = Some v -> 2 ^ 31 <= v ->
          sniff_spec f (w, d)
          = match strconv.ParseFloat d with
            | Some x =>
                result_map gcode.AddressableFloat32
                           (gcode.NewAddressableGcodeFloat32 f w x)
            | None =>
                result_map gcode.AddressableString
                           (gcode.NewAddressableGcodeString f w d)
            end)
    /\ (forall f w,
          sniff_spec f (w, EmptyString) = gcode.NewUnaddressableGcode f w).
Proof.
  intros s checksum gcodeFactory. split; [apply Parse_refines_spec|].
  split; [reflexivity|]. split; [|split; [|reflexivity]].
  - intros f w d v Hd Hv. unfold sniff_spec.
    rewrite (ParseInt_digits d v Hd Hv).
    destruct d; [discriminate | reflexivity].
  - intros f w d v Hd Hv. unfold sniff_spec.
    rewrite (ParseInt_digits_overflow d v Hd Hv).
    destruct d; [discriminate | reflexivity].
Qed.

Lemma Parse_type_sniffing_witness :
  Parse "N4 G3" None None = Parse_spec "N4 G3" None None
  /\ sniff_spec gcodefactory.GcodeFactory ("G"%char, "2147483647"%string)
     = Ok (gcode.AddressableInt32 (gcode.mkAddressable "G"%char 2147483647))
  /\ sniff_spec gcodefactory.GcodeFactory ("G"%char, "2147483648"%string)
     = Ok (gcode.AddressableFloat32
             (gcode.mkAddressable "G"%char (strconv.Finite false 8388608 8))).
Proof.
  destruct (Parse_type_sniffing "N4 G3" None None) as (H1 & _ & H3 & H4 & _).
  split; [exact H1|]. split.
  - rewrite (H3 gcodefactory.GcodeFactory "G"%char "2147483647"%string
                2147483647); [reflexivity | reflexivity | lia].
  - rewrite (H4 gcodefactory.GcodeFactory "G"%char "2147483648"%string
                2147483648); [reflexivity | reflexivity | lia].
Defined.

(** The literal of the specification: [G3] is an int32 gcode. *)
Example Parse_G3 :
  Parse "G3" None None
  = Done (Ok (mkBlock None
                (Some (gcode.AddressableInt32 (gcode.mkAddressable "G"%char 3)))
                [] None EmptyString None (Some gcodefactory.GcodeFactory))).
Proof. reflexivity. Qed.

(** ** Classification of the gcodes *)

Lemma Parse_assemble_nil : forall checksum f,
  Parse_assemble [] checksum f = Panic IndexOutOfRange.
Proof. reflexivity. Qed.

(** With at least one gcode, neither [gcodes[1]] nor the slices go out of
    range, and the two branches on [len(gcodes) == 1] agree but for the
    message of the error. *)
Lemma Parse_assemble_cons : forall g0 rest checksum f,
  Parse_assemble (g0 :: rest) checksum f
  = if Ascii.eqb (gcode.GcoderWord g0) "N" then
      match asAddresableInt32 g0 with
      | None => Done (Err (lineNumberError g0 rest))
      | Some ln2 =>
          Done (Ok (mkBlock (convertLineNumber f ln2) (hd_error rest) (tl rest)
                            None EmptyString checksum (Some f)))
      end
    else Done (Ok (mkBlock None (Some g0) rest None EmptyString
                           checksum (Some f))).
Proof.
  intros g0 [|g1 rest] checksum f; unfold Parse_assemble, lineNumberError;
    simpl;
    destruct (Ascii.eqb (gcode.GcoderWord g0) "N");
    destruct (asAddresableInt32 g0); reflexivity.
Qed.

Lemma sniff_all_length : forall f ts gs,
  sniff_all f ts = Ok gs -> List.length gs = List.length ts.
Proof.
  induction ts as [|t ts IH]; simpl; intros gs H.
  - injection H as <-. reflexivity.
  - destruct (sniff_spec f t); [|discriminate].
    destruct (sniff_all f ts) as [gs'|]; [|discriminate].
    injection H as <-. simpl. f_equal. now apply IH.
Qed.

Lemma Parse_gcodes_break : forall s gcodeFactory gcodes,
  Parse_gcodes s gcodeFactory = Some (LoopBreak gcodes) ->
  sniff_all (factory_or_default gcodeFactory)
            (tokens_spec (prepareSourceToParse s)) = Ok gcodes.
Proof.
  intros s gcodeFactory gcodes. rewrite Parse_gcodes_spec.
  destruct (sniff_all _ _); simpl; congruence.
Qed.

(** [Parse] panics exactly on a line without tokens. *)
Lemma Parse_panics_iff_no_token : forall s checksum gcodeFactory,
  match tokens_spec (prepareSourceToParse s) with
  | [] => Parse s checksum gcodeFactory = Panic IndexOutOfRange
  | _ :: _ => exists r, Parse s checksum gcodeFactory = Done r
  end.
Proof.
  intros s checksum gcodeFactory.
  rewrite Parse_refines_spec. unfold Parse_spec.
  destruct (tokens_spec _) as [|t ts] eqn:Ht; [reflexivity|].
  destruct (sniff_all _ _) as [gs|e] eqn:Hs; [|eauto].
  apply sniff_all_length in Hs.
  destruct gs as [|g0 rest]; [discriminate|].
  rewrite Parse_assemble_cons.
  destruct (Ascii.eqb _ _); [destruct (asAddresableInt32 g0)|]; eauto.
Qed.

(** [Parse] always terminates: the fuel of its loop is never used up. *)
Lemma Parse_terminates : forall s checksum gcodeFactory,
  Parse s checksum gcodeFactory <> Diverge.
Proof.
  intros s checksum gcodeFactory.
  pose proof (Parse_panics_iff_no_token s checksum gcodeFactory) as H.
  destruct (tokens_spec _); [rewrite H; discriminate|].
  destruct H as [r ->]. discriminate.
Qed.

(** C5. On the empty line, and on a line of white space or control
    characters only, [Parse] neither returns a block nor an error: no token is
    read, [gcodes[0]] is evaluated and the call panics. *)
Theorem Parse_panics_on_blank_line :
  forall (checksum : option hash.Hash)
         (gcodeFactory : option gcode.GcoderFactory),
    Parse EmptyString checksum gcodeFactory = Panic IndexOutOfRange
    /\ Parse "   " checksum gcodeFactory = Panic IndexOutOfRange
    /\ Parse (String (ascii_of_nat 9) (String (ascii_of_nat 10) EmptyString))
             checksum gcodeFactory = Panic IndexOutOfRange.
Proof.
  intros checksum gcodeFactory.
  split; [|split].
  - exact (Parse_panics_iff_no_token EmptyString checksum gcodeFactory).
  - exact (Parse_panics_iff_no_token "   " checksum gcodeFactory).
  - exact (Parse_panics_iff_no_token
             (String (ascii_of_nat 9) (String (ascii_of_nat 10) EmptyString))
             checksum gcodeFactory).
Qed.

(** C10. A nil factory is not an error: [Parse] puts the package's own
    [GcodeFactory] in its place.  Both calls return the same result; the
    loop ends with the gcodes [GcodeFactory] builds from the tokens, or with
    the error of the first token [GcodeFactory] refuses, which is then the
    result of [Parse]; and a block returned stores [GcodeFactory], not nil,
    its command and parameters being gcodes that [GcodeFactory] built. *)
Theorem Parse_nil_factory_is_default :
  forall (line : string) (hash : option hash.Hash),
    Parse line hash None = Parse line hash (Some gcodefactory.GcodeFactory)
    /\ Parse_gcodes line None
       = Some (loop_exit_spec []
                 (sniff_all gcodefactory.GcodeFactory
                            (tokens_spec (prepareSourceToParse line))))
    /\ (forall e : error,
          sniff_all gcodefactory.GcodeFactory
                    (tokens_spec (prepareSourceToParse line)) = Err e ->
          Parse line hash None = Done (Err e))
    /\ (forall b : Block,
          Parse line hash None = Done (Ok b) ->
          gcodeFactory b = Some gcodefactory.GcodeFactory
          /\ exists g0 rest,
               sniff_all gcodefactory.GcodeFactory
                         (tokens_spec (prepareSourceToParse line))
               = Ok (g0 :: rest)
               /\ match command b with Some c => [c] | None => [] end
                  ++ parameters b
                  = if Ascii.eqb (gcode.GcoderWord g0) "N" then rest
                    else g0 :: rest).
Proof.
  intros line hash. split; [rewrite !Parse_unfold; reflexivity|].
  split; [exact (Parse_gcodes_spec line None)|].
  split.
  - intros e He. rewrite Parse_refines_spec. unfold Parse_spec.
    cbn [factory_or_default]. now rewrite He.
  - intros b H. rewrite Parse_refines_spec in H. unfold Parse_spec in H.
    cbn [factory_or_default] in H.
    destruct (sniff_all gcodefactory.GcodeFactory
                        (tokens_spec (prepareSourceToParse line)))
      as [[|g0 rest]|e]; try discriminate.
    rewrite Parse_assemble_cons in H.
    destruct (Ascii.eqb (gcode.GcoderWord g0) "N") eqn:Ew;
      [destruct (asAddresableInt32 g0)|];
      try discriminate; injection H as <-; simpl;
      (split; [reflexivity|]); exists g0, rest; (split; [reflexivity|]);
      rewrite Ew.
    + now destruct rest.
    + reflexivity.
Qed.

Lemma Parse_nil_factory_is_default_witness :
  Parse "g1 x2" None None
  = Done (Ok (mkBlock None (Some G1)
                      [gcode.AddressableInt32 (gcode.mkAddressable "X"%char 2)]
                      None EmptyString None (Some gcodefactory.GcodeFactory)))
  /\ Parse "g1 +2" None None = Done (Err (WordInvalidValueError "+"))
  /\ gcodeFactory
       (mkBlock None (Some G1)
                [gcode.AddressableInt32 (gcode.mkAddressable "X"%char 2)]
                None EmptyString None (Some gcodefactory.GcodeFactory))
     = Some gcodefactory.GcodeFactory.
Proof.
  split; [reflexivity|].
  destruct (Parse_nil_factory_is_default "g1 +2" None) as (_ & _ & He & _).
  split; [exact (He (WordInvalidValueError "+") eq_refl)|].
  destruct (Parse_nil_factory_is_default "g1 x2" None) as (_ & _ & _ & Hb).
  exact (proj1 (Hb _ eq_refl)).
Defined.

(** ** The command of a block *)

Lemma run_action_command : forall a b b',
  run_action a b = Ok b' -> command b' = command b.
Proof.
  intros [ln|ps|c|s|[h|]|[f|]] b b' H; simpl in H;
    try discriminate; injection H as <-; reflexivity.
Qed.

Lemma New_actions_command : forall actions b b',
  New_actions actions b = Ok b' -> command b' = command b.
Proof.
  induction actions as [|a actions IH]; simpl; intros b b' H.
  - injection H as <-. reflexivity.
  - destruct (run_action a b) as [b1|] eqn:Ha; [|discriminate].
    apply IH in H. apply run_action_command in Ha. congruence.
Qed.

Lemma New_options_command : forall options config b b',
  New_options options config b = Ok b' -> command b' = command b.
Proof.
  induction options as [|o options IH]; simpl; intros config b b' H.
  - injection H as <-. reflexivity.
  - destruct (o config) as [config'|]; [|discriminate].
    destruct (New_actions _ b) as [b1|] eqn:Ha; [|discriminate].
    apply IH in H. apply New_actions_command in Ha. congruence.
Qed.

Lemma New_command : forall c options b,
  New c options = Ok b -> c <> None /\ command b = c.
Proof.
  intros [c|] options b H; [|discriminate].
  split; [discriminate|].
  apply New_options_command in H. exact H.
Qed.

(** When [Parse] returns a block, the block has no command exactly when the
    line held one gcode only, of word [N]. *)
Lemma Parse_command_absent_iff : forall s checksum gcodeFactory b,
  Parse s checksum gcodeFactory = Done (Ok b) ->
  (command b = None
   <-> exists g0, Parse_gcodes s gcodeFactory = Some (LoopBreak [g0])
                  /\ gcode.GcoderWord g0 = "N"%char).
Proof.
  intros s checksum gcodeFactory b. rewrite Parse_unfold, Parse_gcodes_spec.
  destruct (sniff_all _ _) as [[|g0 rest]|e]; simpl; try discriminate.
  rewrite Parse_assemble_cons.
  destruct (Ascii.eqb (gcode.GcoderWord g0) "N") eqn:Hw.
  - apply Ascii.eqb_eq in Hw.
    destruct (asAddresableInt32 g0) as [ln2|]; [|discriminate].
    intro H. injection H as <-. simpl. split.
    + destruct rest; [|discriminate]. intros _. eauto.
    + intros (g & Hg & _). injection Hg as _ ->. reflexivity.
  - apply Ascii.eqb_neq in Hw.
    intro H. injection H as <-. simpl. split; [discriminate|].
    intros (g & Hg & Hn). injection Hg as -> _. contradiction.
Qed.

(** C4, counterexample. The line [N4] parses to a block without command. *)
Lemma Parse_lone_line_number_has_no_command :
  exists b, Parse "N4" None None = Done (Ok b) /\ command b = None.
Proof. eexists. split; reflexivity. Qed.

(** C4, amended. [New] fails on an absent command and otherwise returns a
    block holding the command it was given; a block returned by [Parse] has a
    command unless the line consists of a lone [N] gcode (a line number and
    nothing else), in which case the command is absent. *)
Theorem Block_command_presence :
  forall (c : option gcode.Gcoder) (options : list BlockConfigurerCallback)
         (bn : Block) (s : string) (checksum : option hash.Hash)
         (gcodeFactory : option gcode.GcoderFactory) (bp : Block),
    New c options = Ok bn ->
    Parse s checksum gcodeFactory = Done (Ok bp) ->
    New None options = Err (ErrorString "command parameter is required")
    /\ c <> None /\ command bn = c
    /\ (command bp = None
        <-> exists g0, Parse_gcodes s gcodeFactory = Some (LoopBreak [g0])
                       /\ gcode.GcoderWord g0 = "N"%char).
Proof.
  intros c options bn s checksum gcodeFactory bp Hn Hp.
  split; [reflexivity|].
  destruct (New_command _ _ _ Hn) as [Hc Hb].
  repeat split; try assumption;
    apply (Parse_command_absent_iff _ _ _ _ Hp).
Qed.

Lemma Block_command_presence_witness :
  New (Some G92) [SetComment ";comentario"]
  = Ok (mkBlock None (Some G92) [] None ";comentario" None None)
  /\ Parse "N4 G92" None None = Done (Ok N4_G92)
  /\ (command N4_G92 = None
      <-> exists g0, Parse_gcodes "N4 G92" None = Some (LoopBreak [g0])
                     /\ gcode.GcoderWord g0 = "N"%char).
Proof.
  split; [reflexivity|]. split; [reflexivity|].
  exact (proj2 (proj2 (proj2 (Block_command_presence
           (Some G92) [SetComment ";comentario"] _ "N4 G92" None None N4_G92
           eq_refl eq_refl)))).
Defined.

(** ** The line number *)

(** What the package's own factory builds from an integer token. *)
Lemma sniff_default_int32 : forall w remainder ln2,
  sniff_spec gcodefactory.GcodeFactory (w, remainder)
  = Ok (gcode.AddressableInt32 ln2) ->
  gcode.Word ln2 = w /\ strconv.ParseInt remainder = Some (gcode.Address ln2).
Proof.
  intros w remainder ln2. unfold sniff_spec.
  destruct remainder as [|c r].
  - simpl. destruct (gcode.IsValidWord w); discriminate.
  - destruct (strconv.ParseInt (String c r)) as [v|].
    + simpl. unfold gcodefactory.new_addressable.
      destruct (gcode.IsValidWord w); simpl; [|discriminate].
      intro H. injection H as <-. split; reflexivity.
    + destruct (strconv.ParseFloat (String c r)) as [x|]; simpl.
      * unfold gcodefactory.new_addressable.
        destruct (gcode.IsValidWord w); discriminate.
      * destruct (gcode.IsValidWord w); [|discriminate].
        destruct (gcode.IsAddressStringValid (String c r)); discriminate.
Qed.

Lemma Parse_gcodes_default_int32_range : forall s ln2 rest,
  Parse_gcodes s None = Some (LoopBreak (gcode.AddressableInt32 ln2 :: rest)) ->
  - 2 ^ 31 <= gcode.Address ln2 <= 2 ^ 31 - 1.
Proof.
  intros s ln2 rest H. apply Parse_gcodes_break in H.
  destruct (tokens_spec _) as [|[w r] ts]; cbn [sniff_all] in H;
    [discriminate|].
  destruct (sniff_spec _ (w, r)) as [g|] eqn:Hs; [|discriminate].
  destruct (sniff_all _ ts); [|discriminate].
  injection H as -> _.
  apply sniff_default_int32 in Hs. destruct Hs as [_ Hs].
  eapply ParseInt_range; eauto.
Qed.

Lemma to_uint32_negative : forall v,
  - 2 ^ 31 <= v < 0 -> to_uint32 v = 2 ^ 32 + v.
Proof.
  intros v Hv. unfold to_uint32.
  symmetry. apply Z.mod_unique with (q := -1); lia.
Qed.

(** C8, counterexample.  A first token of word [N] is not always consumed as
    the line number: when no int32 value follows the word, [Parse] returns
    an error and no block. *)
Lemma Parse_word_N_without_int32_fails :
  Parse "N G1" None None
  = Done (Err (ErrorString
       "line number gcode found, but it was not possible to parse it: false N"))
  /\ Parse "N1.5" None None
     = Done (Err (ErrorString
          "line number gcode found, but it was not possible to parse it")).
Proof. split; reflexivity. Qed.

(** C8. Let the loop of [Parse] have read the gcodes [g0 :: rest]; [g0] is
    then the gcode the factory built from the first token of the line.  If the
    word of [g0] is not [N], [g0] is the command and [rest] the parameters.
    If the word of [g0] is [N] and [g0] is no int32 gcode, [Parse] returns
    the error of the line number and no block.  If [g0] is an int32 gcode of
    word [N], it is consumed as the line number, built from its value
    converted to uint32; the next gcode, if any, is the command and the
    others the parameters.  With the package's own factory the stored value
    is the int32 value modulo 2^32, which for a negative value [v] is
    [2^32 + v]: the parse does not fail. *)
Theorem Parse_line_number_rewrapped :
  forall (s : string) (checksum : option hash.Hash)
         (gcodeFactory : option gcode.GcoderFactory)
         (g0 : gcode.Gcoder) (rest : list gcode.Gcoder),
    Parse_gcodes s gcodeFactory = Some (LoopBreak (g0 :: rest)) ->
    (exists t ts,
       tokens_spec (prepareSourceToParse s) = t :: ts
       /\ sniff_spec (factory_or_default gcodeFactory) t = Ok g0)
    /\ (gcode.GcoderWord g0 <> "N"%char ->
       Parse s checksum gcodeFactory
       = Done (Ok (mkBlock None (Some g0) rest None EmptyString checksum
                           (Some (factory_or_default gcodeFactory)))))
    /\ (gcode.GcoderWord g0 = "N"%char -> asAddresableInt32 g0 = None ->
          Parse s checksum gcodeFactory
          = Done (Err (lineNumberError g0 rest)))
    /\ (forall ln2,
          g0 = gcode.AddressableInt32 ln2 -> gcode.Word ln2 = "N"%char ->
          Parse s checksum gcodeFactory
          = Done (Ok (mkBlock
                        (convertLineNumber (factory_or_default gcodeFactory) ln2)
                        (hd_error rest) (tl rest) None EmptyString checksum
                        (Some (factory_or_default gcodeFactory))))
          /\ (gcodeFactory = None ->
                convertLineNumber (factory_or_default gcodeFactory) ln2
                = Some (gcode.mkAddressable "N"%char
                                            (gcode.Address ln2 mod 2 ^ 32))
                /\ (gcode.Address ln2 < 0 ->
                      gcode.Address ln2 mod 2 ^ 32
                      = 2 ^ 32 + gcode.Address ln2))).
Proof.
  intros s checksum gcodeFactory g0 rest Hg.
  assert (HP : Parse s checksum gcodeFactory
               = Parse_assemble (g0 :: rest) checksum
                                (factory_or_default gcodeFactory)).
  { rewrite Parse_unfold, Hg. reflexivity. }
  rewrite Parse_assemble_cons in HP. split; [|split; [|split]].
  - pose proof (Parse_gcodes_break _ _ _ Hg) as Hs.
    destruct (tokens_spec (prepareSourceToParse s)) as [|t ts];
      [discriminate|].
    exists t, ts. split; [reflexivity|]. cbn [sniff_all] in Hs.
    destruct (sniff_spec (factory_or_default gcodeFactory) t) as [g|];
      [|discriminate].
    destruct (sniff_all (factory_or_default gcodeFactory) ts);
      [|discriminate].
    simpl in Hs. now injection Hs as -> _.
  - intro Hw. apply Ascii.eqb_neq in Hw. rewrite Hw in HP. exact HP.
  - intros Hw Ha. apply Ascii.eqb_eq in Hw. rewrite Hw, Ha in HP. exact HP.
  - intros ln2 -> Hw. simpl in HP.
    apply Ascii.eqb_eq in Hw. rewrite Hw in HP.
    split; [exact HP|].
    intros ->. split; [reflexivity|].
    intro Hneg. apply Parse_gcodes_default_int32_range in Hg.
    apply to_uint32_negative. lia.
Qed.

Lemma Parse_line_number_rewrapped_witness :
  Parse_gcodes "N-5 G1" None
  = Some (LoopBreak [gcode.AddressableInt32 N_minus5; G1])
  /\ Parse "N-5 G1" None None
     = Done (Ok (mkBlock (Some (gcode.mkAddressable "N"%char 4294967291))
                         (Some G1) [] None EmptyString None
                         (Some gcodefactory.GcodeFactory)))
  /\ -5 mod 2 ^ 32 = 2 ^ 32 + -5
  /\ Parse_gcodes "N G1" None
     = Some (LoopBreak [gcode.Unaddressable "N"%char; G1])
  /\ Parse "N G1" None None
     = Done (Err (lineNumberError (gcode.Unaddressable "N"%char) [G1])).
Proof.
  split; [reflexivity|].
  destruct (Parse_line_number_rewrapped "N-5 G1" None None
              (gcode.AddressableInt32 N_minus5) [G1] eq_refl)
    as (_ & _ & _ & H).
  destruct (H N_minus5 eq_refl eq_refl) as [HP [Hc Hneg]]; [reflexivity|].
  split; [rewrite HP, Hc; reflexivity|].
  split; [apply Hneg; reflexivity|].
  split; [reflexivity|].
  destruct (Parse_line_number_rewrapped "N G1" None None
              (gcode.Unaddressable "N"%char) [G1] eq_refl)
    as (_ & _ & He & _).
  exact (He eq_refl eq_refl).
Defined.

(** ** The line of the test suite *)

(** C3, counterexample. Parsing the whole line fails: the token [E0*67] is
    not an integer, not a float and not a quoted string. *)
Lemma Parse_line_with_checksum_and_comment_fails :
  Parse "N4 G92 E0*67 ;comentario" (Some checksum.xor8) None
  = Done (Err (AddressStringQuoteError "0*67")).
Proof. reflexivity. Qed.

(** Whatever the factory, the whole line cannot give the parameters [E0]
    alone: its four tokens give four gcodes or an error. *)
Lemma Parse_line_with_checksum_and_comment_parameters :
  forall checksum gcodeFactory b,
    Parse "N4 G92 E0*67 ;comentario" checksum gcodeFactory = Done (Ok b) ->
    (2 <= List.length (parameters b))%nat.
Proof.
  intros checksum gcodeFactory b. rewrite Parse_refines_spec. unfold Parse_spec.
  destruct (sniff_all _ _) as [gs|e] eqn:Hs; [|discriminate].
  apply sniff_all_length in Hs.
  change (List.length gs = 4%nat) in Hs.
  destruct gs as [|g0 [|g1 [|g2 [|g3 [|g4 gs]]]]]; try discriminate.
  rewrite Parse_assemble_cons.
  destruct (Ascii.eqb _ _); [destruct (asAddresableInt32 g0)|];
    try discriminate; intro H; injection H as <-; simpl; lia.
Qed.

(** C3, amended. With the package's own factory, parsing the whole line
    [N4 G92 E0*67 ;comentario] returns the quoted-string error of the token
    [E0*67]; parsing the line without its checksum and comment succeeds, with
    line number [N4], command [G92] and parameters [E0], and [ToLine] gives
    the same text back. *)
Theorem Parse_N4_G92_E0 :
  forall checksum : option hash.Hash,
    Parse "N4 G92 E0*67 ;comentario" checksum None
    = Done (Err (AddressStringQuoteError "0*67"))
    /\ Parse "N4 G92 E0" checksum None
       = Done (Ok (mkBlock (Some (gcode.mkAddressable "N"%char 4)) (Some G92)
                           [E0] None EmptyString checksum
                           (Some gcodefactory.GcodeFactory)))
    /\ ToLine (mkBlock (Some (gcode.mkAddressable "N"%char 4)) (Some G92)
                       [E0] None EmptyString checksum
                       (Some gcodefactory.GcodeFactory))
       = "N4 G92 E0"%string.
Proof. intro checksum. repeat split. Qed.

(** ** Serialisation *)

Lemma string_app_assoc : forall a b c : string,
  ((a ++ b) ++ c = a ++ b ++ c)%string.
Proof. induction a as [|x a IH]; simpl; intros; [reflexivity|now rewrite IH]. Qed.

Lemma Join_fold : forall sep rest pre e,
  fold_left (fun b s => b ++ sep ++ s)%string rest (pre ++ e)%string
  = (pre ++ String.concat sep (e :: rest))%string.
Proof.
  induction rest as [|e2 rest IH]; intros pre e.
  - reflexivity.
  - cbn [fold_left].
    rewrite <- (string_app_assoc (pre ++ e) sep e2).
    rewrite (string_app_assoc pre e sep).
    rewrite IH. cbn [String.concat].
    now rewrite !string_app_assoc.
Qed.

(** [strings.Join] is the separator-interleaved concatenation. *)
Lemma Join_concat : forall elems sep,
  strings.Join elems sep = String.concat sep elems.
Proof.
  intros [|e [|e2 rest]] sep; try reflexivity.
  unfold strings.Join.
  exact (Join_fold sep (e2 :: rest) EmptyString e).
Qed.

Lemma values_fold : forall ps values,
  fold_left (fun values g => values ++ [gcode.GcoderString g]) ps values
  = values ++ map gcode.GcoderString ps.
Proof.
  induction ps as [|g ps IH]; intro values; simpl.
  - now rewrite app_nil_r.
  - rewrite IH. now rewrite <- app_assoc.
Qed.

Lemma ToLine_sections : forall b,
  ToLine b = String.concat BLOCK_SEPARATOR (sections_spec b).
Proof.
  intro b. unfold ToLine, sections_spec.
  rewrite values_fold, Join_concat.
  destruct (lineNumber b), (command b); reflexivity.
Qed.

(** C7. [ToLine] is the single-space join of the sections present: line
    number, command, parameters in order.  [ToLineWithCheck] is [ToLine]
    extended by the checksum when one is stored, [ToLine] otherwise;
    [ToLineWithCheckAndComments] is [ToLineWithCheck] extended by the comment
    when the comment is not empty; the method [String] is the latter. *)
Theorem ToLine_nested_join :
  forall b : Block,
    ToLine b = String.concat " " (sections_spec b)
    /\ ToLineWithCheck b
       = match checksum b with
         | Some c => extend_spec (ToLine b) (gcode.Uint32String c)
         | None => ToLine b
         end
    /\ ToLineWithCheckAndComments b
       = match comment b with
         | EmptyString => ToLineWithCheck b
         | _ => extend_spec (ToLineWithCheck b) (comment b)
         end
    /\ BlockString b = ToLineWithCheckAndComments b.
Proof.
  intro b. split; [apply ToLine_sections|]. split; [|split].
  - unfold ToLineWithCheck. destruct (checksum b); reflexivity.
  - unfold ToLineWithCheckAndComments.
    destruct (comment b) as [|c s] eqn:Hc; [reflexivity|].
    replace (0 <? len (String c s)) with true; [reflexivity|].
    symmetry. apply Z.ltb_lt. rewrite len_cons. pose proof (len_nonneg s). lia.
  - reflexivity.
Qed.

(** ** The checksum *)

Lemma to_uint32_byte : forall c, to_uint32 (byte_val c) = byte_val c.
Proof.
  intro c. unfold to_uint32. pose proof (byte_val_range c).
  apply Z.mod_small. lia.
Qed.

(** [hash.Reset] forgets the accumulator, and nothing else. *)
Lemma Reset_after_write : forall h st,
  hash.Reset (hash.mkHash (hash.state h) (hash.initial h) st
                          (hash.write h) (hash.sum h))
  = hash.Reset h.
Proof. reflexivity. Qed.

(** [CalculateChecksum] on a block with a hash engine and a factory: the
    engine is reset and written the bytes of [ToLine]; the first byte of the
    digest goes to the factory under the word [*]. *)
Lemma CalculateChecksum_unfold : forall b h f,
  hash b = Some h -> gcodeFactory b = Some f ->
  CalculateChecksum b
  = let '(st, err) := hash.write h (hash.initial h) (ToLine b) in
    let b' := with_hash b (Some (hash.mkHash (hash.state h) (hash.initial h) st
                                             (hash.write h) (hash.sum h))) in
    match err with
    | Some e => Done (Err (Wrapped "failed to calculate hash to block" e), b')
    | None =>
        match hash.sum h st with
        | EmptyString => Panic IndexOutOfRange
        | String digest0 _ =>
            match gcode.NewAddressableGcodeUint32 f "*" (byte_val digest0) with
            | Ok gc => Done (Ok gc, b')
            | Err e =>
                Done (Err (Wrapped
                  "failed to create checksum gcode instance with hash" e), b')
            end
        end
    end.
Proof.
  intros b h f Hh Hf. unfold CalculateChecksum. rewrite Hh.
  unfold hash.Write, hash.Reset, hash.Sum. cbn [hash.write hash.current hash.state hash.initial hash.sum].
  destruct (hash.write h (hash.initial h) (ToLine b)) as [st [e|]];
    [reflexivity|].
  cbn [hash.sum hash.current with_hash gcodeFactory]. rewrite Hf.
  destruct (hash.sum h st) as [|d ds]; [reflexivity|].
  cbn [strings.byte_at0]. rewrite to_uint32_byte. reflexivity.
Qed.

(** The block that [CalculateChecksum] returns differs from the one it was
    called on in the accumulator of the hash engine only. *)
Lemma CalculateChecksum_block : forall b r b',
  CalculateChecksum b = Done (r, b') ->
  exists h st,
    hash b = Some h
    /\ b' = with_hash b (Some (hash.mkHash (hash.state h) (hash.initial h) st
                                           (hash.write h) (hash.sum h)))
    /\ st = fst (hash.write h (hash.initial h) (ToLine b)).
Proof.
  intros b r b' H. unfold CalculateChecksum in H.
  destruct (hash b) as [h|]; [|discriminate].
  exists h. unfold hash.Write, hash.Reset, hash.Sum in H.
  cbn [hash.write hash.current hash.state hash.initial hash.sum] in H.
  destruct (hash.write h (hash.initial h) (ToLine b)) as [st err].
  exists st. split; [reflexivity|]. split; [|reflexivity].
  destruct err as [e|]; [congruence|].
  destruct (strings.byte_at0 _); [|discriminate].
  destruct (gcodeFactory _); [|discriminate].
  destruct (gcode.NewAddressableGcodeUint32 _ _ _); congruence.
Qed.

Lemma CalculateChecksum_keeps_checksum : forall b r b',
  CalculateChecksum b = Done (r, b') -> checksum b' = checksum b.
Proof.
  intros b r b' H.
  destruct (CalculateChecksum_block _ _ _ H) as (h & st & _ & -> & _).
  reflexivity.
Qed.

(** What [CalculateChecksum] returns is a function of the content of the
    block (line number, command, parameters), of the factory and of the
    configuration of the hash engine. *)
Lemma CalculateChecksum_returned : forall b,
  returned (CalculateChecksum b)
  = match hash b with
    | None => Panic NilDereference
    | Some h =>
        match digest_of h (ToLine b) with
        | (Some e, _) =>
            Done (Err (Wrapped "failed to calculate hash to block" e))
        | (None, EmptyString) => Panic IndexOutOfRange
        | (None, String digest0 _) =>
            match gcodeFactory b with
            | None => Panic NilDereference
            | Some f =>
                match gcode.NewAddressableGcodeUint32
                        f "*" (byte_val digest0) with
                | Ok gc => Done (Ok gc)
                | Err e =>
                    Done (Err (Wrapped
                      "failed to create checksum gcode instance with hash" e))
                end
            end
        end
    end.
Proof.
  intro b. unfold CalculateChecksum, digest_of.
  destruct (hash b) as [h|]; [|reflexivity].
  unfold hash.Write, hash.Reset, hash.Sum.
  cbn [hash.write hash.current hash.state hash.initial hash.sum].
  destruct (hash.write h (hash.initial h) (ToLine b)) as [st [e|]];
    [reflexivity|].
  cbn [hash.sum hash.current with_hash gcodeFactory].
  destruct (hash.sum h st) as [|d ds]; [reflexivity|].
  cbn [strings.byte_at0]. rewrite to_uint32_byte.
  destruct (gcodeFactory b) as [f|]; [|reflexivity].
  destruct (gcode.NewAddressableGcodeUint32 _ _ _); reflexivity.
Qed.

Lemma ToLine_content : forall b b',
  lineNumber b = lineNumber b' -> command b = command b' ->
  parameters b = parameters b' -> ToLine b = ToLine b'.
Proof. intros b b' Hl Hc Hp. unfold ToLine. now rewrite Hl, Hc, Hp. Qed.

Lemma digest_of_Reset : forall h h' p,
  hash.Reset h = hash.Reset h' -> digest_of h p = digest_of h' p.
Proof.
  intros h h' p H.
  change (digest_of (hash.Reset h) p = digest_of (hash.Reset h') p).
  now rewrite H.
Qed.

Lemma CalculateChecksum_deterministic : forall b b',
  lineNumber b = lineNumber b' -> command b = command b' ->
  parameters b = parameters b' -> gcodeFactory b = gcodeFactory b' ->
  option_map hash.Reset (hash b) = option_map hash.Reset (hash b') ->
  returned (CalculateChecksum b) = returned (CalculateChecksum b').
Proof.
  intros b b' Hl Hc Hp Hf Hh.
  rewrite !CalculateChecksum_returned.
  rewrite (ToLine_content b b' Hl Hc Hp), Hf.
  destruct (hash b) as [h|], (hash b') as [h'|]; try discriminate;
    [|reflexivity].
  assert (Hr : hash.Reset h = hash.Reset h')
    by exact (f_equal (fun o => match o with
                                | Some x => x
                                | None => hash.Reset h
                                end) Hh).
  now rewrite (digest_of_Reset h h' _ Hr).
Qed.

Lemma CalculateChecksum_with_checksum : forall b c,
  CalculateChecksum (with_checksum b c)
  = match CalculateChecksum b with
    | Done (r, b') => Done (r, with_checksum b' c)
    | Panic p => Panic p
    | Diverge => Diverge
    end.
Proof.
  intros b c. unfold CalculateChecksum.
  cbn [hash with_checksum].
  destruct (hash b) as [h|]; [|reflexivity].
  change (ToLine (with_checksum b c)) with (ToLine b).
  destruct (hash.Write (hash.Reset h) (ToLine b)) as [h' [e|]]; [reflexivity|].
  destruct (strings.byte_at0 _); [|reflexivity].
  cbn [gcodeFactory with_hash with_checksum].
  destruct (gcodeFactory b); [|reflexivity].
  destruct (gcode.NewAddressableGcodeUint32 _ _ _); reflexivity.
Qed.

Lemma CalculateChecksum_again : forall b r b1,
  CalculateChecksum b = Done (r, b1) -> CalculateChecksum b1 = Done (r, b1).
Proof.
  intros b r b1 H.
  destruct (CalculateChecksum_block _ _ _ H) as (h & st & Hh & -> & Hst).
  rewrite <- H. unfold CalculateChecksum.
  cbn [hash with_hash]. rewrite Hh.
  unfold hash.Write, hash.Reset, hash.Sum.
  cbn [hash.write hash.current hash.state hash.initial hash.sum].
  change (ToLine (with_hash b _)) with (ToLine b).
  destruct (hash.write h (hash.initial h) (ToLine b)) as [st' err].
  simpl in Hst. subst st'. reflexivity.
Qed.

Lemma UpdateChecksum_again : forall b r b1,
  UpdateChecksum b = Done (r, b1) -> UpdateChecksum b1 = Done (r, b1).
Proof.
  intros b r b1 H. unfold UpdateChecksum in H.
  destruct (CalculateChecksum b) as [[[gc|e] b0]| |] eqn:Hc; try discriminate;
    injection H as <- <-.
  - pose proof (CalculateChecksum_again _ _ _ Hc) as H1.
    unfold UpdateChecksum.
    rewrite CalculateChecksum_with_checksum, H1. reflexivity.
  - unfold UpdateChecksum.
    rewrite (CalculateChecksum_again _ _ _ Hc). reflexivity.
Qed.

Lemma Parse_reference_line : forall h,
  Parse reference_line (Some h) None = Done (Ok (reference_block h)).
Proof. reflexivity. Qed.

(** C9. Determinism: what [CalculateChecksum] returns is the same on any two
    blocks with the same line number, command, parameters and factory whose
    hash engines have the same configuration (they may differ in the
    accumulator, and the blocks in checksum and comment).  Hence a second call
    returns what the first returned, and leaves the block as the first left
    it; so does a second [UpdateChecksum], and the stored checksum after the
    second call is the one stored by the first. *)
Theorem checksum_deterministic_and_idempotent :
  forall (b b' : Block)
         (r1 : result (gcode.AddresableGcoder uint32)) (b1 : Block)
         (u1 : result unit) (c1 : Block),
    lineNumber b = lineNumber b' -> command b = command b' ->
    parameters b = parameters b' -> gcodeFactory b = gcodeFactory b' ->
    option_map hash.Reset (hash b) = option_map hash.Reset (hash b') ->
    CalculateChecksum b = Done (r1, b1) ->
    UpdateChecksum b = Done (u1, c1) ->
    returned (CalculateChecksum b') = Done r1
    /\ CalculateChecksum b1 = Done (r1, b1)
    /\ UpdateChecksum c1 = Done (u1, c1)
    /\ (forall u2 c2, UpdateChecksum c1 = Done (u2, c2) ->
                      checksum c2 = checksum c1).
Proof.
  intros b b' r1 b1 u1 c1 Hl Hc Hp Hf Hh H1 Hu.
  split.
  - rewrite <- (CalculateChecksum_deterministic b b' Hl Hc Hp Hf Hh), H1.
    reflexivity.
  - split; [exact (CalculateChecksum_again _ _ _ H1)|].
    pose proof (UpdateChecksum_again _ _ _ Hu) as Hu2.
    split; [exact Hu2|].
    intros u2 c2 H. rewrite Hu2 in H. now injection H as _ <-.
Qed.

Lemma checksum_deterministic_and_idempotent_witness :
  returned (CalculateChecksum
              (mkBlock (lineNumber (reference_block checksum.xor8))
                       (command (reference_block checksum.xor8))
                       (parameters (reference_block checksum.xor8))
                       (Some star67) ";comentario"
                       (Some (xor8_after "G1"))
                       (Some gcodefactory.GcodeFactory)))
  = Done (Ok star85)
  /\ CalculateChecksum
       (with_hash (reference_block checksum.xor8)
                  (Some (xor8_after reference_line)))
     = Done (Ok star85,
             with_hash (reference_block checksum.xor8)
                       (Some (xor8_after reference_line)))
  /\ UpdateChecksum
       (with_checksum
          (with_hash (reference_block checksum.xor8)
                     (Some (xor8_after reference_line)))
          (Some star85))
     = Done (Ok tt,
             with_checksum
               (with_hash (reference_block checksum.xor8)
                          (Some (xor8_after reference_line)))
               (Some star85)).
Proof.
  destruct (checksum_deterministic_and_idempotent
              (reference_block checksum.xor8)
              (mkBlock (lineNumber (reference_block checksum.xor8))
                       (command (reference_block checksum.xor8))
                       (parameters (reference_block checksum.xor8))
                       (Some star67) ";comentario"
                       (Some (xor8_after "G1"))
                       (Some gcodefactory.GcodeFactory))
              (Ok star85)
              (with_hash (reference_block checksum.xor8)
                         (Some (xor8_after reference_line)))
              (Ok tt)
              (with_checksum
                 (with_hash (reference_block checksum.xor8)
                            (Some (xor8_after reference_line)))
                 (Some star85))
              eq_refl eq_refl eq_refl eq_refl eq_refl eq_refl eq_refl)
    as (H1 & H2 & H3 & _).
  split; [exact H1|]. split; [exact H2|exact H3].
Defined.

Lemma VerifyChecksum_keeps_checksum : forall b r b',
  VerifyChecksum b = Done (r, b') -> checksum b' = checksum b.
Proof.
  intros b r b' H. unfold VerifyChecksum in H.
  destruct (checksum b) as [c|] eqn:Hc; [|injection H as _ <-; exact Hc].
  destruct (CalculateChecksum b) as [[[gc|e] b0]| |] eqn:Hcalc;
    try discriminate.
  - apply CalculateChecksum_keeps_checksum in Hcalc.
    destruct (checksum b0) eqn:Hc0; [|discriminate].
    injection H as _ <-. congruence.
  - apply CalculateChecksum_keeps_checksum in Hcalc.
    injection H as _ <-. congruence.
Qed.

Lemma VerifyChecksum_returned : forall b c,
  checksum b = Some c ->
  returned (VerifyChecksum b)
  = match returned (CalculateChecksum b) with
    | Done (Ok gc) => Done (Ok (gcode.Compare c gc))
    | Done (Err e) =>
        Done (Err (Wrapped
          "failed to calculate hash to the control of the checksum of the block"
          e))
    | Panic p => Panic p
    | Diverge => Diverge
    end.
Proof.
  intros b c Hc. unfold VerifyChecksum. rewrite Hc.
  destruct (CalculateChecksum b) as [[[gc|e] b0]| |] eqn:Hcalc;
    try reflexivity.
  apply CalculateChecksum_keeps_checksum in Hcalc.
  rewrite Hcalc, Hc. reflexivity.
Qed.

(** C6, counterexample. A block built by [New] with a stored checksum, a hash
    engine and a factory that refuses the word [*]: [VerifyChecksum] returns
    an error although a checksum is stored.  And a block built by [New] with
    a stored checksum but no hash engine: [VerifyChecksum] panics. *)
Lemma VerifyChecksum_error_with_stored_checksum :
  New (Some G92) [SetChecksum (Some star67); SetHash (Some checksum.xor8);
                  SetGcodeFactory (Some lettersFactory)]
  = Ok (mkBlock None (Some G92) [] (Some star67) EmptyString
                (Some checksum.xor8) (Some lettersFactory))
  /\ returned (VerifyChecksum
                 (mkBlock None (Some G92) [] (Some star67) EmptyString
                          (Some checksum.xor8) (Some lettersFactory)))
     = Done (Err (Wrapped
         "failed to calculate hash to the control of the checksum of the block"
         (Wrapped "failed to create checksum gcode instance with hash"
                  (WordInvalidValueError "*"))))
  /\ New (Some G92) [SetChecksum (Some star67)]
     = Ok (mkBlock None (Some G92) [] (Some star67) EmptyString None None)
  /\ VerifyChecksum
       (mkBlock None (Some G92) [] (Some star67) EmptyString None None)
     = Panic NilDereference.
Proof. repeat split. Qed.

(** C6, amended. Without a stored checksum [VerifyChecksum] returns an error
    and leaves the block as it is.  With a stored checksum [c], a hash engine
    and a factory, the engine is reset and written [ToLine]: a failed write
    and a gcode refused by the factory are returned as errors; otherwise the
    result is [Compare] of [c] with the gcode built from the first byte of
    the digest.  Whenever [VerifyChecksum] returns, the stored checksum is
    the one stored before. *)
Theorem VerifyChecksum_spec :
  forall b : Block,
    (checksum b = None ->
       VerifyChecksum b
       = Done (Err (ErrorString "the block hasn't check section"), b))
    /\ (forall r b', VerifyChecksum b = Done (r, b') ->
                     checksum b' = checksum b)
    /\ (forall c h f,
          checksum b = Some c -> hash b = Some h -> gcodeFactory b = Some f ->
          returned (VerifyChecksum b)
          = match digest_of h (ToLine b) with
            | (Some e, _) =>
                Done (Err (Wrapped
                  "failed to calculate hash to the control of the checksum of the block"
                  (Wrapped "failed to calculate hash to block" e)))
            | (None, EmptyString) => Panic IndexOutOfRange
            | (None, String digest0 _) =>
                match gcode.NewAddressableGcodeUint32
                        f "*" (byte_val digest0) with
                | Ok gc => Done (Ok (gcode.Compare c gc))
                | Err e =>
                    Done (Err (Wrapped
                      "failed to calculate hash to the control of the checksum of the block"
                      (Wrapped
                         "failed to create checksum gcode instance with hash"
                         e)))
                end
            end).
Proof.
  intro b. split; [|split].
  - intro Hc. unfold VerifyChecksum. rewrite Hc. reflexivity.
  - apply VerifyChecksum_keeps_checksum.
  - intros c h f Hc Hh Hf.
    rewrite (VerifyChecksum_returned b c Hc), CalculateChecksum_returned, Hh, Hf.
    destruct (digest_of h (ToLine b)) as [[e|] [|d ds]]; try reflexivity.
    destruct (gcode.NewAddressableGcodeUint32 f "*" (byte_val d)); reflexivity.
Qed.

Lemma VerifyChecksum_spec_witness :
  VerifyChecksum (reference_block checksum.xor8)
  = Done (Err (ErrorString "the block hasn't check section"),
          reference_block checksum.xor8)
  /\ returned (VerifyChecksum
                 (with_checksum (reference_block checksum.xor8) (Some star85)))
     = Done (Ok true)
  /\ returned (VerifyChecksum
                 (with_checksum (reference_block checksum.xor8) (Some star67)))
     = Done (Ok false).
Proof.
  split; [|split].
  - exact (proj1 (VerifyChecksum_spec (reference_block checksum.xor8)) eq_refl).
  - exact (proj2 (proj2 (VerifyChecksum_spec
             (with_checksum (reference_block checksum.xor8) (Some star85))))
             star85 checksum.xor8 gcodefactory.GcodeFactory
             eq_refl eq_refl eq_refl).
  - exact (proj2 (proj2 (VerifyChecksum_spec
             (with_checksum (reference_block checksum.xor8) (Some star67))))
             star67 checksum.xor8 gcodefactory.GcodeFactory
             eq_refl eq_refl eq_refl).
Defined.

(** C2, counterexample. With the engine that adds the bytes modulo 256 the
    checksum of the reference line is 181, not 85. *)
Lemma reference_checksum_of_sum8_is_181 :
  Parse reference_line (Some checksum.sum8) None
  = Done (Ok (reference_block checksum.sum8))
  /\ ToLine (reference_block checksum.sum8) = reference_line
  /\ checksum_value (CalculateChecksum (reference_block checksum.sum8))
     = Some 181
  /\ checksum_value (CalculateChecksum (reference_block checksum.sum8))
     <> Some 85.
Proof. repeat split. discriminate. Qed.

(** The checksum does not cover the stored checksum nor the comment. *)
Lemma CalculateChecksum_ignores_checksum_and_comment :
  forall ln cmd ps c1 s1 c2 s2 h f,
    returned (CalculateChecksum (mkBlock ln cmd ps c1 s1 h f))
    = returned (CalculateChecksum (mkBlock ln cmd ps c2 s2 h f)).
Proof.
  intros. apply CalculateChecksum_deterministic; reflexivity.
Qed.

(** C2, amended. On a block with a hash engine [h] and a factory [f],
    [CalculateChecksum] resets the engine, writes it the bytes of [ToLine]
    and nothing else ([ToLine] being the join of line number, command and
    parameters, so that neither the stored checksum nor the comment counts),
    and hands the first byte of the digest to the factory under the word [*],
    as a uint32.  On the block parsed from the reference line the value is 85
    with the exclusive-or engine, and 181 with the engine that adds the bytes
    modulo 256. *)
Theorem CalculateChecksum_first_digest_byte :
  forall (b : Block) (h : hash.Hash) (f : gcode.GcoderFactory),
    hash b = Some h -> gcodeFactory b = Some f ->
    returned (CalculateChecksum b)
    = match digest_of h (String.concat " " (sections_spec b)) with
      | (Some e, _) =>
          Done (Err (Wrapped "failed to calculate hash to block" e))
      | (None, EmptyString) => Panic IndexOutOfRange
      | (None, String digest0 _) =>
          match gcode.NewAddressableGcodeUint32 f "*" (byte_val digest0) with
          | Ok gc => Done (Ok gc)
          | Err e =>
              Done (Err (Wrapped
                "failed to create checksum gcode instance with hash" e))
          end
      end
    /\ (forall c s,
          returned (CalculateChecksum
                      (mkBlock (lineNumber b) (command b) (parameters b)
                               c s (hash b) (gcodeFactory b)))
          = returned (CalculateChecksum b))
    /\ Parse reference_line (Some checksum.xor8) None
       = Done (Ok (reference_block checksum.xor8))
    /\ returned (CalculateChecksum (reference_block checksum.xor8))
       = Done (Ok (gcode.mkAddressable "*"%char 85))
    /\ returned (CalculateChecksum (reference_block checksum.sum8))
       = Done (Ok (gcode.mkAddressable "*"%char 181)).
Proof.
  intros b h f Hh Hf. split; [|split].
  - rewrite CalculateChecksum_returned, Hh, Hf, ToLine_sections. reflexivity.
  - intros c s. apply CalculateChecksum_deterministic; reflexivity.
  - repeat split.
Qed.

Lemma CalculateChecksum_first_digest_byte_witness :
  returned (CalculateChecksum (reference_block checksum.xor8))
  = match digest_of checksum.xor8 reference_line with
    | (Some e, _) =>
        Done (Err (Wrapped "failed to calculate hash to block" e))
    | (None, EmptyString) => Panic IndexOutOfRange
    | (None, String digest0 _) => Done (Ok (gcode.mkAddressable "*"%char (byte_val digest0)))
    end.
Proof.
  exact (proj1 (CalculateChecksum_first_digest_byte
                  (reference_block checksum.xor8) checksum.xor8
                  gcodefactory.GcodeFactory eq_refl eq_refl)).
Defined.

(** * Further properties of the package *)

(** ** The prepared line *)

Lemma upper_not_lower : forall c, is_lower (strings.upper c) = false.
Proof. intros [[] [] [] [] [] [] [] []]; reflexivity. Qed.

Lemma upper_class_s : forall c,
  regexp.is_class_s (strings.upper c) = regexp.is_class_s c.
Proof. intros [[] [] [] [] [] [] [] []]; reflexivity. Qed.

Lemma upper_isSpace : forall c,
  strings.isSpace (strings.upper c) = strings.isSpace c.
Proof. intros [[] [] [] [] [] [] [] []]; reflexivity. Qed.

Lemma upper_fixed : forall c, is_lower c = false -> strings.upper c = c.
Proof. intros [[] [] [] [] [] [] [] []]; intro H; try reflexivity; discriminate. Qed.

Lemma class_s_isSpace : forall c,
  regexp.is_class_s c = true -> strings.isSpace c = true.
Proof. intros [[] [] [] [] [] [] [] []]; intro H; try reflexivity; discriminate. Qed.

Lemma special_class_s : forall c,
  is_special c = true -> regexp.is_class_s c = true.
Proof. intros [[] [] [] [] [] [] [] []]; intro H; try reflexivity; discriminate. Qed.

Lemma separator_class_s : forall c,
  is_separator c = true -> regexp.is_class_s c = true.
Proof. intros [[] [] [] [] [] [] [] []]; intro H; try reflexivity; discriminate. Qed.

Lemma all_bytes_ToUpper : forall s,
  all_bytes (fun c => negb (is_lower c)) (strings.ToUpper s) = true.
Proof.
  induction s as [|c s IH]; simpl; [reflexivity|].
  now rewrite upper_not_lower, IH.
Qed.

Lemma all_bytes_replace_runs : forall p s r,
  p " "%char = true -> all_bytes p s = true -> run_bytes p r = true ->
  all_bytes p (regexp.replace_runs s r) = true.
Proof.
  intros p s. induction s as [|c s IH]; intros r Hsp Hs Hr.
  - destruct r; simpl in *; rewrite ?Hr, ?Hsp; reflexivity.
  - simpl in Hs. apply andb_true_iff in Hs. destruct Hs as [Hc Hs].
    simpl. destruct (regexp.is_class_s c).
    + apply IH; try assumption. destruct r; simpl; auto.
    + assert (Hk : all_bytes p (String c (regexp.replace_runs s regexp.NoRun))
                   = true).
      { simpl. rewrite Hc. apply IH; auto. }
      destruct r; simpl in *; rewrite ?Hr, ?Hsp; exact Hk.
Qed.

Lemma all_bytes_replace_controls : forall s,
  all_bytes (fun c => negb (is_lower c)) s = true ->
  all_bytes prepared_byte (regexp.replace_controls s) = true.
Proof.
  induction s as [|c s IH]; simpl; intro H; [reflexivity|].
  apply andb_true_iff in H. destruct H as [Hc Hs].
  rewrite (IH Hs), andb_true_r.
  unfold prepared_byte. fold (is_special c).
  destruct (is_special c) eqn:E; [reflexivity|].
  now rewrite E, Hc.
Qed.

Lemma prepared_bytes_of : forall t,
  all_bytes prepared_byte
            (removeSpecialChars (removeDuplicateSpaces (strings.ToUpper t)))
  = true.
Proof.
  intro t. unfold removeSpecialChars, removeDuplicateSpaces.
  apply all_bytes_replace_controls.
  apply all_bytes_replace_runs; [reflexivity| |reflexivity].
  apply all_bytes_ToUpper.
Qed.

(** X1. The prepared line holds no tab, newline or carriage return and no
    lower-case ASCII letter, whatever the source line. *)
Theorem prepareSourceToParse_bytes :
  forall s : string,
    all_bytes prepared_byte (prepareSourceToParse s) = true.
Proof.
  intro s. unfold prepareSourceToParse.
  exact (prepared_bytes_of (strings.TrimSpace s)).
Qed.

Lemma TrimLeft_first : forall s,
  strings.TrimLeft s = EmptyString
  \/ first_not strings.isSpace (strings.TrimLeft s) = true.
Proof.
  induction s as [|c s IH]; simpl; [now left|].
  destruct (strings.isSpace c) eqn:E; [exact IH|].
  right. simpl. now rewrite E.
Qed.

Lemma TrimRight_last : forall s,
  strings.TrimRight s = EmptyString
  \/ last_not strings.isSpace (strings.TrimRight s) = true.
Proof.
  induction s as [|c s IH]; simpl; [now left|].
  destruct (strings.TrimRight s) as [|d t] eqn:Ht.
  - destruct (strings.isSpace c) eqn:E; [now left|].
    right. simpl. now rewrite E.
  - right. destruct IH as [IH|IH]; [discriminate|]. exact IH.
Qed.

Lemma TrimRight_first : forall s,
  first_not strings.isSpace s = true ->
  first_not strings.isSpace (strings.TrimRight s) = true.
Proof.
  intros [|c s] H; [discriminate|].
  simpl in *. destruct (strings.TrimRight s).
  - destruct (strings.isSpace c) eqn:E; [discriminate|].
    simpl. now rewrite E.
  - exact H.
Qed.

(** The trimmed line is empty, or starts and ends outside the white space. *)
Lemma TrimSpace_ends : forall s,
  strings.TrimSpace s = EmptyString
  \/ (first_not strings.isSpace (strings.TrimSpace s) = true
      /\ last_not strings.isSpace (strings.TrimSpace s) = true).
Proof.
  intro s. unfold strings.TrimSpace.
  destruct (TrimLeft_first s) as [H|H]; [rewrite H; now left|].
  destruct (TrimRight_last (strings.TrimLeft s)) as [H'|H']; [now left|].
  right. split; [now apply TrimRight_first|exact H'].
Qed.

Lemma first_not_ToUpper : forall p s,
  (forall c, p (strings.upper c) = p c) ->
  first_not p (strings.ToUpper s) = first_not p s.
Proof. intros p [|c s] H; simpl; [reflexivity|now rewrite H]. Qed.

Lemma last_not_ToUpper : forall p s,
  (forall c, p (strings.upper c) = p c) ->
  last_not p (strings.ToUpper s) = last_not p s.
Proof.
  intros p s H. induction s as [|c s IH]; [reflexivity|].
  simpl. destruct s as [|d s]; simpl in *; [now rewrite H|exact IH].
Qed.

Lemma last_not_cons : forall p c d s,
  last_not p (String c (String d s)) = last_not p (String d s).
Proof. reflexivity. Qed.

Lemma last_not_subclass : forall (p q : ascii -> bool) s,
  (forall c, q c = true -> p c = true) ->
  last_not p s = true -> last_not q s = true.
Proof.
  intros p q s H. induction s as [|c s IH]; [discriminate|].
  destruct s as [|d s].
  - simpl. destruct (q c) eqn:E; [rewrite (H c E); discriminate|reflexivity].
  - rewrite !last_not_cons. exact IH.
Qed.

Lemma tight_outside : forall p c s prev,
  p c = false -> tight p (String c s) prev = tight p s false.
Proof. intros p c s prev H. simpl. now rewrite H. Qed.

(** After [\s{2,}] is replaced, no two bytes of the class [\s] are adjacent;
    a line that starts and ends outside the class still does. *)
Lemma tight_replace_runs : forall u r prev,
  last_not regexp.is_class_s u = true ->
  run_bytes regexp.is_class_s r = true ->
  (prev = true -> r = regexp.NoRun /\ first_not regexp.is_class_s u = true) ->
  tight regexp.is_class_s (regexp.replace_runs u r) prev = true.
Proof.
  induction u as [|c u IH]; intros r prev Hl Hr Hp; [discriminate|].
  cbn [regexp.replace_runs].
  destruct (regexp.is_class_s c) eqn:Sc.
  - assert (prev = false) as ->.
    { destruct prev; [|reflexivity].
      destruct (Hp eq_refl) as [_ Hf]. simpl in Hf. rewrite Sc in Hf.
      discriminate. }
    destruct u as [|d u]; [simpl in Hl; rewrite Sc in Hl; discriminate|].
    rewrite last_not_cons in Hl.
    apply IH; [exact Hl| |discriminate].
    destruct r; simpl; auto.
  - assert (Hrest : tight regexp.is_class_s
                      (regexp.replace_runs u regexp.NoRun) false = true).
    { destruct u as [|d u]; [reflexivity|].
      rewrite last_not_cons in Hl.
      apply IH; [exact Hl|reflexivity|discriminate]. }
    destruct r as [|x|]; cbn [regexp.flush].
    + now rewrite tight_outside.
    + assert (prev = false) as ->
        by (destruct prev; [destruct (Hp eq_refl); discriminate|reflexivity]).
      simpl in Hr. cbn [tight]. rewrite Hr, Sc. exact Hrest.
    + assert (prev = false) as ->
        by (destruct prev; [destruct (Hp eq_refl); discriminate|reflexivity]).
      cbn [tight]. rewrite Sc. exact Hrest.
Qed.

Lemma tight_replace_controls : forall s prev,
  tight regexp.is_class_s (regexp.replace_controls s) prev
  = tight regexp.is_class_s s prev.
Proof.
  induction s as [|c s IH]; intro prev; [reflexivity|].
  cbn [regexp.replace_controls tight]. fold (is_special c).
  destruct (is_special c) eqn:E.
  - rewrite (special_class_s c E). change (regexp.is_class_s " ") with true.
    now rewrite IH.
  - destruct (regexp.is_class_s c); now rewrite IH.
Qed.

Lemma tight_subclass : forall (p q : ascii -> bool) s prev prev',
  (forall c, q c = true -> p c = true) ->
  (prev' = true -> prev = true) ->
  tight p s prev = true -> tight q s prev' = true.
Proof.
  intros p q s. induction s as [|c s IH]; intros prev prev' Hsub Hprev H.
  - simpl in *. destruct prev'; [rewrite Hprev in H by reflexivity; discriminate|reflexivity].
  - cbn [tight] in *. destruct (q c) eqn:Qc.
    + rewrite (Hsub c Qc) in H. apply andb_true_iff in H. destruct H as [Hn H].
      destruct prev; [discriminate|].
      destruct prev'; [discriminate (Hprev eq_refl)|].
      simpl. eapply IH; eauto.
    + destruct (p c).
      * apply andb_true_iff in H. destruct H as [_ H].
        eapply IH; [exact Hsub| |exact H]. discriminate.
      * eapply IH; [exact Hsub| |exact H]. discriminate.
Qed.

(** In a line without leading, trailing or doubled separator every field is
    a token. *)
Lemma tight_fields : forall s prev,
  tight is_separator s prev = true ->
  match split_spaces s with
  | [] => False
  | f0 :: fields =>
      (prev = true -> f0 <> EmptyString)
      /\ Forall (fun f => f <> EmptyString) fields
  end.
Proof.
  induction s as [|c s IH]; intros prev H.
  - simpl in *. destruct prev; [discriminate|]. split; [discriminate|constructor].
  - cbn [tight split_spaces] in *. unfold is_separator in H.
    destruct (Ascii.eqb c separator).
    + apply andb_true_iff in H. destruct H as [Hp H].
      destruct prev; [discriminate|]. split; [discriminate|].
      specialize (IH true H). destruct (split_spaces s) as [|f0 fields]; [contradiction|].
      destruct IH as [H0 Hf]. constructor; auto.
    + specialize (IH false H). destruct (split_spaces s) as [|f0 fields]; [contradiction|].
      destruct IH as [_ Hf]. split; [discriminate|exact Hf].
Qed.

Lemma prepared_tight : forall s,
  prepareSourceToParse s = EmptyString
  \/ tight regexp.is_class_s (prepareSourceToParse s) true = true.
Proof.
  intro s. unfold prepareSourceToParse, removeSpecialChars, removeDuplicateSpaces.
  destruct (TrimSpace_ends s) as [H|[Hf Hl]]; [rewrite H; now left|].
  right. rewrite tight_replace_controls.
  apply tight_replace_runs.
  - rewrite last_not_ToUpper by apply upper_class_s.
    eapply last_not_subclass; [apply class_s_isSpace|exact Hl].
  - reflexivity.
  - intros _. split; [reflexivity|].
    rewrite first_not_ToUpper by apply upper_class_s.
    destruct (strings.TrimSpace s) as [|c t]; [discriminate|].
    simpl in *. destruct (regexp.is_class_s c) eqn:E; [|reflexivity].
    rewrite (class_s_isSpace c E) in Hf. discriminate.
Qed.

(** X2. In the prepared line no space stands first, last or next to another
    space: the line is empty, or every field between two spaces is a token,
    none is empty. *)
Theorem prepareSourceToParse_well_separated :
  forall s : string,
    well_separated (prepareSourceToParse s) = true
    /\ (prepareSourceToParse s = EmptyString
        \/ Forall (fun f => f <> EmptyString)
                  (split_spaces (prepareSourceToParse s))).
Proof.
  intro s.
  destruct (prepared_tight s) as [H|H]; [rewrite H; split; [reflexivity|now left]|].
  assert (Ht : tight is_separator (prepareSourceToParse s) true = true).
  { eapply tight_subclass; [apply separator_class_s| |exact H]. auto. }
  split.
  - unfold well_separated. destruct (prepareSourceToParse s); [reflexivity|exact Ht].
  - right. apply tight_fields in Ht.
    destruct (split_spaces _) as [|f0 fields]; [contradiction|].
    destruct Ht as [H0 Hf]. constructor; auto.
Qed.

Lemma special_isSpace : forall c,
  is_special c = true -> strings.isSpace c = true.
Proof. intros c H. apply class_s_isSpace. now apply special_class_s. Qed.

Lemma first_not_replace_runs : forall u,
  first_not strings.isSpace u = true ->
  first_not strings.isSpace (regexp.replace_runs u regexp.NoRun) = true.
Proof.
  intros [|c u] H; [discriminate|].
  simpl in *. destruct (regexp.is_class_s c) eqn:E.
  - rewrite (class_s_isSpace c E) in H. discriminate.
  - exact H.
Qed.

Lemma last_not_flush : forall p r c s,
  last_not p (regexp.flush r (String c s)) = last_not p (String c s).
Proof. intros p [|x|] c s; reflexivity. Qed.

Lemma last_not_nonempty : forall p s,
  last_not p s = true -> s <> EmptyString.
Proof. intros p [|c s] H; [discriminate|discriminate]. Qed.

Lemma last_not_replace_runs : forall u r,
  last_not strings.isSpace u = true ->
  last_not strings.isSpace (regexp.replace_runs u r) = true.
Proof.
  induction u as [|c u IH]; intros r H; [discriminate|].
  cbn [regexp.replace_runs].
  destruct (regexp.is_class_s c) eqn:E.
  - destruct u as [|d u].
    + simpl in H. rewrite (class_s_isSpace c E) in H. discriminate.
    + rewrite last_not_cons in H. now apply IH.
  - rewrite last_not_flush.
    destruct u as [|d u]; [exact H|].
    rewrite last_not_cons in H.
    specialize (IH regexp.NoRun H).
    destruct (regexp.replace_runs (String d u) regexp.NoRun) as [|x t];
      [discriminate|exact IH].
Qed.

Lemma replace_controls_isSpace : forall c,
  strings.isSpace (if is_special c then " "%char else c) = strings.isSpace c.
Proof.
  intro c. destruct (is_special c) eqn:E; [|reflexivity].
  now rewrite (special_isSpace c E).
Qed.

Lemma first_not_replace_controls : forall s,
  first_not strings.isSpace (regexp.replace_controls s)
  = first_not strings.isSpace s.
Proof.
  intros [|c s]; [reflexivity|].
  cbn [regexp.replace_controls first_not]. fold (is_special c).
  now rewrite replace_controls_isSpace.
Qed.

Lemma last_not_replace_controls : forall s,
  last_not strings.isSpace (regexp.replace_controls s)
  = last_not strings.isSpace s.
Proof.
  induction s as [|c s IH]; [reflexivity|].
  destruct s as [|d s].
  - cbn [regexp.replace_controls last_not]. fold (is_special c).
    now rewrite replace_controls_isSpace.
  - change (regexp.replace_controls (String c (String d s)))
      with (String (if is_special c then " "%char else c)
                   (regexp.replace_controls (String d s))).
    rewrite last_not_cons.
    destruct (regexp.replace_controls (String d s)) as [|x t] eqn:Hx;
      [discriminate|].
    rewrite last_not_cons. exact IH.
Qed.

(** The prepared line is empty, or starts and ends outside the white space. *)
Lemma prepared_ends : forall s,
  prepareSourceToParse s = EmptyString
  \/ (first_not strings.isSpace (prepareSourceToParse s) = true
      /\ last_not strings.isSpace (prepareSourceToParse s) = true).
Proof.
  intro s. unfold prepareSourceToParse, removeSpecialChars, removeDuplicateSpaces.
  destruct (TrimSpace_ends s) as [H|[Hf Hl]]; [rewrite H; now left|].
  right. rewrite first_not_replace_controls, last_not_replace_controls.
  split.
  - apply first_not_replace_runs.
    now rewrite first_not_ToUpper by apply upper_isSpace.
  - apply last_not_replace_runs.
    now rewrite last_not_ToUpper by apply upper_isSpace.
Qed.

Lemma TrimLeft_fixed : forall s,
  first_not strings.isSpace s = true -> strings.TrimLeft s = s.
Proof.
  intros [|c s] H; [discriminate|].
  simpl in *. now destruct (strings.isSpace c).
Qed.

Lemma TrimRight_fixed : forall s,
  last_not strings.isSpace s = true -> strings.TrimRight s = s.
Proof.
  induction s as [|c s IH]; intro H; [discriminate|].
  destruct s as [|d s].
  - simpl in *. now destruct (strings.isSpace c).
  - rewrite last_not_cons in H.
    change (strings.TrimRight (String c (String d s)))
      with (match strings.TrimRight (String d s) with
            | EmptyString =>
                if strings.isSpace c then EmptyString else String c EmptyString
            | t => String c t
            end).
    now rewrite (IH H).
Qed.

Lemma ToUpper_fixed : forall s,
  all_bytes (fun c => negb (is_lower c)) s = true -> strings.ToUpper s = s.
Proof.
  induction s as [|c s IH]; simpl; intro H; [reflexivity|].
  apply andb_true_iff in H. destruct H as [Hc Hs].
  rewrite (IH Hs), upper_fixed; [reflexivity|].
  now destruct (is_lower c).
Qed.

Lemma replace_controls_fixed : forall s,
  all_bytes (fun c => negb (is_special c)) s = true ->
  regexp.replace_controls s = s.
Proof.
  induction s as [|c s IH]; simpl; intro H; [reflexivity|].
  apply andb_true_iff in H. destruct H as [Hc Hs].
  rewrite (IH Hs). fold (is_special c).
  now destruct (is_special c).
Qed.

(** A line without adjacent [\\s] bytes has no match of [\\s{2,}]. *)
Lemma replace_runs_fixed : forall s,
  (tight regexp.is_class_s s false = true ->
   regexp.replace_runs s regexp.NoRun = s)
  /\ (tight regexp.is_class_s s true = true ->
      forall x, regexp.replace_runs s (regexp.One x) = String x s).
Proof.
  induction s as [|c s [IH0 IH1]]; split.
  - reflexivity.
  - discriminate.
  - cbn [tight regexp.replace_runs]. destruct (regexp.is_class_s c).
    + simpl. intro H. now apply IH1.
    + intro H. cbn [regexp.flush]. now rewrite IH0.
  - cbn [tight regexp.replace_runs]. destruct (regexp.is_class_s c).
    + discriminate.
    + intros H x. cbn [regexp.flush]. now rewrite IH0.
Qed.

Lemma all_bytes_weaken : forall (p q : ascii -> bool) s,
  (forall c, p c = true -> q c = true) ->
  all_bytes p s = true -> all_bytes q s = true.
Proof.
  intros p q s H. induction s as [|c s IH]; simpl; [reflexivity|].
  intro Hs. apply andb_true_iff in Hs. destruct Hs as [Hc Hs].
  now rewrite (H c Hc), IH.
Qed.

Lemma prepareSourceToParse_idempotent : forall s,
  prepareSourceToParse (prepareSourceToParse s) = prepareSourceToParse s.
Proof.
  intro s.
  pose proof (prepared_bytes_of (strings.TrimSpace s)) as Hb.
  change (removeSpecialChars (removeDuplicateSpaces
            (strings.ToUpper (strings.TrimSpace s))))
    with (prepareSourceToParse s) in Hb.
  destruct (prepared_ends s) as [He|[Hf Hl]]; [rewrite He; reflexivity|].
  destruct (prepared_tight s) as [He|Ht];
    [rewrite He in Hf; discriminate|].
  set (p := prepareSourceToParse s) in *.
  unfold prepareSourceToParse, removeSpecialChars, removeDuplicateSpaces,
    strings.TrimSpace.
  rewrite (TrimLeft_fixed p Hf), (TrimRight_fixed p Hl).
  rewrite ToUpper_fixed.
  - destruct p as [|c q]; [reflexivity|].
    assert (Hc : regexp.is_class_s c = false).
    { simpl in Hf. destruct (regexp.is_class_s c) eqn:E; [|reflexivity].
      rewrite (class_s_isSpace c E) in Hf. discriminate. }
    rewrite (proj1 (replace_runs_fixed (String c q))).
    + apply replace_controls_fixed.
      eapply all_bytes_weaken; [|exact Hb].
      intros x Hx. unfold prepared_byte in Hx.
      now destruct (is_special x).
    + rewrite tight_outside by exact Hc.
      rewrite tight_outside in Ht by exact Hc. exact Ht.
  - eapply all_bytes_weaken; [|exact Hb].
    intros x Hx. unfold prepared_byte in Hx.
    destruct (is_special x); [discriminate|exact Hx].
Qed.

(** X3. Preparing a prepared line changes nothing, so [Parse] gives on the
    prepared line what it gives on the source line. *)
Theorem Parse_prepared_line :
  forall (s : string) (checksum : option hash.Hash)
         (gcodeFactory : option gcode.GcoderFactory),
    prepareSourceToParse (prepareSourceToParse s) = prepareSourceToParse s
    /\ Parse (prepareSourceToParse s) checksum gcodeFactory
       = Parse s checksum gcodeFactory.
Proof.
  intros s checksum gcodeFactory.
  split; [apply prepareSourceToParse_idempotent|].
  unfold Parse. now rewrite prepareSourceToParse_idempotent.
Qed.

Lemma upper_upper : forall c, strings.upper (strings.upper c) = strings.upper c.
Proof. intros [[] [] [] [] [] [] [] []]; reflexivity. Qed.

Lemma ToUpper_ToUpper : forall s,
  strings.ToUpper (strings.ToUpper s) = strings.ToUpper s.
Proof.
  induction s as [|c s IH]; simpl; [reflexivity|].
  now rewrite upper_upper, IH.
Qed.

Lemma TrimLeft_ToUpper : forall s,
  strings.TrimLeft (strings.ToUpper s) = strings.ToUpper (strings.TrimLeft s).
Proof.
  induction s as [|c s IH]; simpl; [reflexivity|].
  rewrite upper_isSpace. now destruct (strings.isSpace c).
Qed.

Lemma TrimRight_ToUpper : forall s,
  strings.TrimRight (strings.ToUpper s) = strings.ToUpper (strings.TrimRight s).
Proof.
  induction s as [|c s IH]; simpl; [reflexivity|].
  rewrite IH, upper_isSpace.
  destruct (strings.TrimRight s); simpl; [|reflexivity].
  now destruct (strings.isSpace c).
Qed.

(** X4. [Parse] does not tell the case of ASCII letters: the line in upper
    case parses as the line itself. *)
Theorem Parse_case_insensitive :
  forall (s : string) (checksum : option hash.Hash)
         (gcodeFactory : option gcode.GcoderFactory),
    Parse (strings.ToUpper s) checksum gcodeFactory
    = Parse s checksum gcodeFactory.
Proof.
  intros s checksum gcodeFactory.
  assert (H : prepareSourceToParse (strings.ToUpper s)
              = prepareSourceToParse s).
  { unfold prepareSourceToParse, strings.TrimSpace.
    now rewrite TrimLeft_ToUpper, TrimRight_ToUpper, ToUpper_ToUpper. }
  unfold Parse. now rewrite H.
Qed.

(** ** What [Parse] returns *)

Lemma Parse_success : forall s h f b,
  Parse s h f = Done (Ok b) ->
  exists g0 rest,
    Parse_gcodes s f = Some (LoopBreak (g0 :: rest))
    /\ Parse_assemble (g0 :: rest) h (factory_or_default f) = Done (Ok b).
Proof.
  intros s h f b. rewrite Parse_unfold, Parse_gcodes_spec.
  destruct (sniff_all _ _) as [[|g0 rest]|e]; simpl; try discriminate.
  intro H. eauto.
Qed.

Lemma Parse_assemble_shape : forall gs h f b,
  Parse_assemble gs h f = Done (Ok b) ->
  checksum b = None /\ comment b = EmptyString
  /\ hash b = h /\ gcodeFactory b = Some f.
Proof.
  intros [|g0 rest] h f b; [discriminate|].
  rewrite Parse_assemble_cons.
  destruct (Ascii.eqb _ _); [destruct (asAddresableInt32 g0)|];
    try discriminate; intro H; injection H as <-; repeat split.
Qed.

(** X5. A block returned by [Parse] never carries a checksum or a comment;
    it keeps the hash engine it was given, nil included, and always has a
    factory.  So all its exports are the plain line of [ToLine]. *)
Theorem Parse_block_shape :
  forall (s : string) (h : option hash.Hash)
         (f : option gcode.GcoderFactory) (b : Block),
    Parse s h f = Done (Ok b) ->
    checksum b = None /\ comment b = EmptyString
    /\ hash b = h /\ gcodeFactory b = Some (factory_or_default f)
    /\ ToLineWithCheck b = ToLine b /\ BlockString b = ToLine b.
Proof.
  intros s h f b H.
  destruct (Parse_success _ _ _ _ H) as (g0 & rest & _ & Ha).
  destruct (Parse_assemble_shape _ _ _ _ Ha) as (Hc & Hm & Hh & Hf).
  repeat split; try assumption.
  - unfold ToLineWithCheck. now rewrite Hc.
  - unfold BlockString, ToLineWithCheckAndComments, ToLineWithCheck.
    now rewrite Hc, Hm.
Qed.

Lemma Parse_block_shape_witness :
  Parse "n4 g92" (Some checksum.xor8) None
  = Done (Ok (with_hash N4_G92 (Some checksum.xor8)))
  /\ checksum (with_hash N4_G92 (Some checksum.xor8)) = None
  /\ BlockString (with_hash N4_G92 (Some checksum.xor8))
     = ToLine (with_hash N4_G92 (Some checksum.xor8)).
Proof.
  split; [reflexivity|].
  destruct (Parse_block_shape "n4 g92" (Some checksum.xor8) None
              (with_hash N4_G92 (Some checksum.xor8)) eq_refl)
    as (Hc & _ & _ & _ & _ & Hs).
  split; [exact Hc|exact Hs].
Defined.

(** X6. [VerifyChecksum] on a block just returned by [Parse] always returns
    the error of the missing check section, whatever the line, the hash
    engine and the factory, and leaves the block as it is. *)
Theorem VerifyChecksum_after_Parse :
  forall (s : string) (h : option hash.Hash)
         (f : option gcode.GcoderFactory) (b : Block),
    Parse s h f = Done (Ok b) ->
    VerifyChecksum b
    = Done (Err (ErrorString "the block hasn't check section"), b).
Proof.
  intros s h f b H.
  destruct (Parse_success _ _ _ _ H) as (g0 & rest & _ & Ha).
  destruct (Parse_assemble_shape _ _ _ _ Ha) as (Hc & _).
  unfold VerifyChecksum. now rewrite Hc.
Qed.

Lemma VerifyChecksum_after_Parse_witness :
  Parse reference_line (Some checksum.xor8) None
  = Done (Ok (reference_block checksum.xor8))
  /\ VerifyChecksum (reference_block checksum.xor8)
     = Done (Err (ErrorString "the block hasn't check section"),
             reference_block checksum.xor8).
Proof.
  split; [reflexivity|].
  exact (VerifyChecksum_after_Parse reference_line (Some checksum.xor8) None
           (reference_block checksum.xor8) eq_refl).
Defined.

Lemma sniff_all_pointwise : forall f ts gs,
  sniff_all f ts = Ok gs ->
  Forall2 (fun t g => sniff_spec f t = Ok g) ts gs.
Proof.
  induction ts as [|t ts IH]; simpl; intros gs H.
  - injection H as <-. constructor.
  - destruct (sniff_spec f t) as [g|] eqn:Eg; [|discriminate].
    destruct (sniff_all f ts) as [gs'|]; [|discriminate].
    simpl in H. injection H as <-. constructor; [exact Eg|now apply IH].
Qed.

(** X7. No token is dropped or reordered: when [Parse] returns a block, the
    gcodes its loop read are, position by position, those the factory built
    from the tokens of the prepared line: the i-th gcode is the sniffed i-th
    token.  The command followed by the parameters are these gcodes in that
    order, the first one apart when its word is [N]. *)
Theorem Parse_keeps_token_order :
  forall (s : string) (h : option hash.Hash)
         (f : option gcode.GcoderFactory) (b : Block),
    Parse s h f = Done (Ok b) ->
    exists g0 rest,
      Parse_gcodes s f = Some (LoopBreak (g0 :: rest))
      /\ sniff_all (factory_or_default f)
                   (tokens_spec (prepareSourceToParse s)) = Ok (g0 :: rest)
      /\ Forall2 (fun t g => sniff_spec (factory_or_default f) t = Ok g)
                 (tokens_spec (prepareSourceToParse s)) (g0 :: rest)
      /\ match command b with Some c => [c] | None => [] end ++ parameters b
         = if Ascii.eqb (gcode.GcoderWord g0) "N" then rest else g0 :: rest.
Proof.
  intros s h f b H.
  destruct (Parse_success _ _ _ _ H) as (g0 & rest & Hg & Ha).
  exists g0, rest. split; [exact Hg|].
  pose proof (Parse_gcodes_break _ _ _ Hg) as Hs.
  split; [exact Hs|]. split; [now apply sniff_all_pointwise|].
  rewrite Parse_assemble_cons in Ha.
  destruct (Ascii.eqb _ _); [destruct (asAddresableInt32 g0)|];
    try discriminate; injection Ha as <-; simpl; [|reflexivity].
  now destruct rest.
Qed.

Lemma Parse_keeps_token_order_witness :
  Parse reference_line (Some checksum.xor8) None
  = Done (Ok (reference_block checksum.xor8))
  /\ sniff_all gcodefactory.GcodeFactory
               (tokens_spec (prepareSourceToParse reference_line))
     = Ok (gcode.AddressableInt32 (gcode.mkAddressable "N"%char 7)
             :: G1 :: parameters (reference_block checksum.xor8))
  /\ match command (reference_block checksum.xor8) with
     | Some c => [c]
     | None => []
     end ++ parameters (reference_block checksum.xor8)
     = G1 :: parameters (reference_block checksum.xor8).
Proof.
  split; [reflexivity|].
  destruct (Parse_keeps_token_order reference_line (Some checksum.xor8) None
              (reference_block checksum.xor8) eq_refl)
    as (g0 & rest & Hg & Hs & HF & Ho).
  split; [|reflexivity].
  cbn [factory_or_default] in Hs. rewrite Hs.
  vm_compute in Hg. now injection Hg as <- <-.
Defined.

Lemma sniff_all_refused : forall f pre t post gs e,
  sniff_all f pre = Ok gs -> sniff_spec f t = Err e ->
  sniff_all f (pre ++ t :: post) = Err e.
Proof.
  induction pre as [|p pre IH]; intros t post gs e Hp Ht; simpl in *.
  - now rewrite Ht.
  - destruct (sniff_spec f p); [|discriminate].
    destruct (sniff_all f pre) as [gs'|] eqn:E; [|discriminate].
    now rewrite (IH t post gs' e eq_refl Ht).
Qed.

(** X8. [Parse] reports the first token the factory refuses: when the tokens
    before it are accepted, the error of that token is returned and no block,
    whatever follows on the line. *)
Theorem Parse_first_refused_token :
  forall (s : string) (h : option hash.Hash)
         (f : option gcode.GcoderFactory)
         (pre : list token) (t : token) (post : list token)
         (gs : list gcode.Gcoder) (e : error),
    tokens_spec (prepareSourceToParse s) = pre ++ t :: post ->
    sniff_all (factory_or_default f) pre = Ok gs ->
    sniff_spec (factory_or_default f) t = Err e ->
    Parse s h f = Done (Err e).
Proof.
  intros s h f pre t post gs e Ht Hp He.
  rewrite Parse_refines_spec. unfold Parse_spec.
  now rewrite Ht, (sniff_all_refused _ _ _ _ _ _ Hp He).
Qed.

Lemma Parse_first_refused_token_witness :
  Parse "G1 x2 +3 ;4" None None = Done (Err (WordInvalidValueError "+")).
Proof.
  apply (Parse_first_refused_token "G1 x2 +3 ;4" None None
           [("G"%char, "1"%string); ("X"%char, "2"%string)]
           ("+"%char, "3"%string) [(";"%char, "4"%string)]
           [G1; gcode.AddressableInt32 (gcode.mkAddressable "X"%char 2)]
           (WordInvalidValueError "+")); reflexivity.
Defined.

(** X9. With the package's own factory a line whose first token has the word
    [N] but no int32 address ([N] alone, [N1.5], digits beyond the int32
    range) never gives a block: [Parse] returns an error, even when every
    token is a valid gcode. *)
Theorem Parse_line_number_must_be_int32 :
  forall (s : string) (h : option hash.Hash)
         (remainder : string) (ts : list token),
    tokens_spec (prepareSourceToParse s) = ("N"%char, remainder) :: ts ->
    strconv.ParseInt remainder = None ->
    exists e, Parse s h None = Done (Err e).
Proof.
  intros s h remainder ts Ht Hi.
  rewrite Parse_refines_spec. unfold Parse_spec. rewrite Ht.
  cbn [sniff_all factory_or_default].
  destruct (sniff_spec gcodefactory.GcodeFactory ("N"%char, remainder))
    as [g0|e] eqn:Hs; [|eauto].
  destruct (sniff_all gcodefactory.GcodeFactory ts) as [rest|e]; [|simpl; eauto].
  simpl. rewrite Parse_assemble_cons.
  assert (Hg : gcode.GcoderWord g0 = "N"%char /\ asAddresableInt32 g0 = None).
  { unfold sniff_spec in Hs. rewrite Hi in Hs.
    destruct remainder as [|c r].
    - simpl in Hs. injection Hs as <-. split; reflexivity.
    - destruct (strconv.ParseFloat (String c r)) as [x|]; simpl in Hs.
      + injection Hs as <-. split; reflexivity.
      + destruct (gcode.IsAddressStringValid (String c r)); [discriminate|].
        injection Hs as <-. split; reflexivity. }
  destruct Hg as [-> ->]. simpl. eauto.
Qed.

Lemma Parse_line_number_must_be_int32_witness :
  tokens_spec (prepareSourceToParse "N1.5 G1")
  = [("N"%char, "1.5"%string); ("G"%char, "1"%string)]
  /\ Parse "N1.5 G1" None None
     = Done (Err (ErrorString
         "line number gcode found, but it was not possible to parse it: false N1.5")).
Proof.
  split; [reflexivity|].
  destruct (Parse_line_number_must_be_int32 "N1.5 G1" None "1.5"
              [("G"%char, "1"%string)] eq_refl eq_refl) as [e He].
  rewrite He. vm_compute in He. now injection He as <-.
Defined.

(** ** The checksum of a parsed block *)

(** X10. [Parse] accepts a nil hash engine, but the block it returns cannot
    compute a checksum: [CalculateChecksum] and [UpdateChecksum] panic on
    the nil engine. *)
Theorem Parse_nil_hash_panics :
  forall (s : string) (f : option gcode.GcoderFactory) (b : Block),
    Parse s None f = Done (Ok b) ->
    CalculateChecksum b = Panic NilDereference
    /\ UpdateChecksum b = Panic NilDereference.
Proof.
  intros s f b H.
  destruct (Parse_success _ _ _ _ H) as (g0 & rest & _ & Ha).
  destruct (Parse_assemble_shape _ _ _ _ Ha) as (_ & _ & Hh & _).
  assert (Hc : CalculateChecksum b = Panic NilDereference)
    by (unfold CalculateChecksum; now rewrite Hh).
  split; [exact Hc|]. unfold UpdateChecksum. now rewrite Hc.
Qed.

Lemma Parse_nil_hash_panics_witness :
  Parse "N4 G92" None None = Done (Ok N4_G92)
  /\ CalculateChecksum N4_G92 = Panic NilDereference
  /\ UpdateChecksum N4_G92 = Panic NilDereference.
Proof.
  split; [reflexivity|].
  exact (Parse_nil_hash_panics "N4 G92" None N4_G92 eq_refl).
Defined.

Lemma UpdateChecksum_success : forall b b1,
  UpdateChecksum b = Done (Ok tt, b1) ->
  exists gc b0,
    CalculateChecksum b = Done (Ok gc, b0) /\ b1 = with_checksum b0 (Some gc).
Proof.
  intros b b1 H. unfold UpdateChecksum in H.
  destruct (CalculateChecksum b) as [[[gc|e] b0]| |]; try discriminate.
  injection H as <-. eauto.
Qed.

(** X11. On a block parsed with the package's own factory and a hash engine
    whose write succeeds with a non-empty digest, the checksum is always
    computed: [CalculateChecksum] returns the gcode of word [*] whose value
    is the first digest byte, below 256, and [UpdateChecksum] stores it, so
    that the line with check is the plain line followed by [ *] and that
    value in decimal. *)
Theorem checksum_of_parsed_block :
  forall (s : string) (h : hash.Hash) (b : Block)
         (digest0 : ascii) (digest : string),
    Parse s (Some h) None = Done (Ok b) ->
    digest_of h (ToLine b) = (None, String digest0 digest) ->
    returned (CalculateChecksum b)
    = Done (Ok (gcode.mkAddressable "*"%char (byte_val digest0)))
    /\ 0 <= byte_val digest0 < 256
    /\ exists b1,
         UpdateChecksum b = Done (Ok tt, b1)
         /\ checksum b1
            = Some (gcode.mkAddressable "*"%char (byte_val digest0))
         /\ ToLineWithCheck b1
            = (ToLine b ++ " *" ++ strconv.FormatUint (byte_val digest0))%string.
Proof.
  intros s h b d ds H Hd.
  destruct (Parse_success _ _ _ _ H) as (g0 & rest & _ & Ha).
  destruct (Parse_assemble_shape _ _ _ _ Ha) as (_ & _ & Hh & Hf).
  assert (Hr : returned (CalculateChecksum b)
               = Done (Ok (gcode.mkAddressable "*"%char (byte_val d)))).
  { rewrite CalculateChecksum_returned, Hh, Hd, Hf. reflexivity. }
  split; [exact Hr|]. split; [apply byte_val_range|].
  destruct (CalculateChecksum b) as [[r b0]| |] eqn:Hc; try discriminate.
  simpl in Hr. injection Hr as ->.
  exists (with_checksum b0 (Some (gcode.mkAddressable "*"%char (byte_val d)))).
  split; [unfold UpdateChecksum; now rewrite Hc|].
  split; [reflexivity|].
  destruct (CalculateChecksum_block _ _ _ Hc) as (h' & st & _ & -> & _).
  reflexivity.
Qed.

Lemma checksum_of_parsed_block_witness :
  Parse reference_line (Some checksum.xor8) None
  = Done (Ok (reference_block checksum.xor8))
  /\ returned (CalculateChecksum (reference_block checksum.xor8))
     = Done (Ok star85)
  /\ 0 <= 85 < 256.
Proof.
  split; [reflexivity|].
  destruct (checksum_of_parsed_block reference_line checksum.xor8
              (reference_block checksum.xor8) "U"%char EmptyString
              eq_refl eq_refl) as (Hr & Hb & _).
  split; [exact Hr|exact Hb].
Defined.

(** X12. [UpdateChecksum] touches nothing but the stored checksum and the
    accumulator of the hash engine: line number, command, parameters, comment
    and factory are kept, so [ToLine] is unchanged; and when it returns an
    error the stored checksum is kept too. *)
Theorem UpdateChecksum_keeps_content :
  forall (b : Block) (r : result unit) (b1 : Block),
    UpdateChecksum b = Done (r, b1) ->
    lineNumber b1 = lineNumber b /\ command b1 = command b
    /\ parameters b1 = parameters b /\ comment b1 = comment b
    /\ gcodeFactory b1 = gcodeFactory b /\ ToLine b1 = ToLine b
    /\ (r <> Ok tt -> checksum b1 = checksum b).
Proof.
  intros b r b1 H. unfold UpdateChecksum in H.
  destruct (CalculateChecksum b) as [[[gc|e] b0]| |] eqn:Hc; try discriminate;
    injection H as <- <-;
    destruct (CalculateChecksum_block _ _ _ Hc) as (h & st & _ & -> & _);
    repeat split; congruence.
Qed.

Lemma UpdateChecksum_keeps_content_witness :
  UpdateChecksum (reference_block checksum.xor8)
  = Done (Ok tt,
          with_checksum
            (with_hash (reference_block checksum.xor8)
                       (Some (xor8_after reference_line)))
            (Some star85))
  /\ ToLine (with_checksum
               (with_hash (reference_block checksum.xor8)
                          (Some (xor8_after reference_line)))
               (Some star85))
     = ToLine (reference_block checksum.xor8).
Proof.
  split; [reflexivity|].
  exact (proj1 (proj2 (proj2 (proj2 (proj2 (proj2
           (UpdateChecksum_keeps_content (reference_block checksum.xor8)
              (Ok tt) _ eq_refl))))))).
Defined.

Lemma Compare_refl : forall c, gcode.Compare c c = true.
Proof.
  intro c. unfold gcode.Compare.
  now rewrite Ascii.eqb_refl, Z.eqb_refl.
Qed.

(** X13. A checksum just stored verifies: after a successful
    [UpdateChecksum], [VerifyChecksum] returns true, without error, and
    leaves the block as it is. *)
Theorem VerifyChecksum_after_UpdateChecksum :
  forall b b1 : Block,
    UpdateChecksum b = Done (Ok tt, b1) ->
    VerifyChecksum b1 = Done (Ok true, b1).
Proof.
  intros b b1 H.
  destruct (UpdateChecksum_success _ _ H) as (gc & b0 & Hc & ->).
  pose proof (CalculateChecksum_again _ _ _ Hc) as H0.
  unfold VerifyChecksum. cbn [checksum with_checksum].
  rewrite CalculateChecksum_with_checksum, H0.
  cbn [checksum with_checksum]. now rewrite Compare_refl.
Qed.

Lemma VerifyChecksum_after_UpdateChecksum_witness :
  VerifyChecksum
    (with_checksum
       (with_hash (reference_block checksum.xor8)
                  (Some (xor8_after reference_line)))
       (Some star85))
  = Done (Ok true,
          with_checksum
            (with_hash (reference_block checksum.xor8)
                       (Some (xor8_after reference_line)))
            (Some star85)).
Proof.
  exact (VerifyChecksum_after_UpdateChecksum
           (reference_block checksum.xor8) _ eq_refl).
Defined.

(** ** The options of [New] *)

Lemma New_options_refused : forall options o e config b,
  In o options -> (forall config, o config = Err e) ->
  exists e', New_options options config b = Err e'.
Proof.
  induction options as [|x options IH]; intros o e config b Hin Ho;
    [contradiction|].
  cbn [New_options].
  destruct Hin as [->|Hin].
  - rewrite Ho. eauto.
  - destruct (x config) as [config'|]; [|eauto].
    destruct (New_actions _ b) as [b'|]; [|eauto].
    eapply IH; eauto.
Qed.

(** X14. [New] is all or nothing: if one of the options refuses the
    configuration, no block is returned, whichever options come before or
    after it. *)
Theorem New_all_or_nothing :
  forall (c : option gcode.Gcoder) (options : list BlockConfigurerCallback)
         (o : BlockConfigurerCallback) (e : error),
    In o options -> (forall config, o config = Err e) ->
    exists e', New c options = Err e'.
Proof.
  intros [c|] options o e Hin Ho; [|simpl; eauto].
  unfold New. eapply New_options_refused; eauto.
Qed.

Lemma New_all_or_nothing_witness :
  New (Some G92) [SetComment ";comentario"; SetLineNumber None;
                  SetChecksum (Some star67)]
  = Err (Wrapped "couldn't apply configuration" (ErrorString "lineNumber")).
Proof.
  destruct (New_all_or_nothing (Some G92)
              [SetComment ";comentario"; SetLineNumber None;
               SetChecksum (Some star67)]
              (SetLineNumber None) (ErrorString "lineNumber")
              (or_intror (or_introl eq_refl)) (fun _ => eq_refl)) as [e He].
  rewrite He. vm_compute in He. now injection He as <-.
Defined.

Lemma New_actions_app : forall xs ys b,
  New_actions (xs ++ ys) b
  = match New_actions xs b with
    | Ok b' => New_actions ys b'
    | Err e => Err e
    end.
Proof.
  induction xs as [|x xs IH]; intros ys b; simpl; [reflexivity|].
  destruct (run_action x b); [apply IH|reflexivity].
Qed.

Lemma run_action_settle : forall a o b,
  run_action a (settle o b)
  = result_map (fun o' => settle o' b) (stage_action a o).
Proof. intros [ln|ps|c|s|[h|]|[f|]] o b; reflexivity. Qed.

Lemma New_actions_settle : forall actions o b,
  New_actions actions (settle o b)
  = result_map (fun o' => settle o' b) (stage_all actions o).
Proof.
  induction actions as [|a actions IH]; intros o b; simpl; [reflexivity|].
  rewrite run_action_settle.
  destruct (stage_action a o) as [o'|e]; simpl; [apply IH|reflexivity].
Qed.

Lemma settle_nothing : forall b, settle nothing_staged b = b.
Proof. intros []; reflexivity. Qed.

Lemma settle_settle : forall o b, settle o (settle o b) = settle o b.
Proof. intros [[] [] [] [] [] []] b; reflexivity. Qed.

(** Applying the staged actions to the block they produced changes nothing. *)
Lemma New_actions_twice : forall actions b b',
  New_actions actions b = Ok b' -> New_actions actions b' = Ok b'.
Proof.
  intros actions b b' H.
  rewrite <- (settle_nothing b), New_actions_settle in H.
  destruct (stage_all actions nothing_staged) as [o|] eqn:Ho; [|discriminate].
  simpl in H. injection H as <-.
  rewrite <- (settle_nothing (settle o b)) at 1.
  rewrite New_actions_settle, Ho. simpl. now rewrite settle_settle.
Qed.

Lemma New_options_staged : forall rest done c b,
  New_actions done (bare_block c) = Ok b ->
  New_options (map stage_one rest) (mkConfig done) b
  = New_actions (done ++ rest) (bare_block c).
Proof.
  induction rest as [|a rest IH]; intros done c b H.
  - simpl. now rewrite app_nil_r, H.
  - cbn [map New_options stage_one configurationCallbacks].
    rewrite (New_actions_app done (a :: rest)), H.
    rewrite (New_actions_app done [a]), (New_actions_twice _ _ _ H).
    cbn [New_actions].
    destruct (run_action a b) as [b'|e] eqn:Ha; [|reflexivity].
    rewrite (IH (done ++ [a]) c b').
    + rewrite <- app_assoc. simpl.
      now rewrite (New_actions_app done (a :: rest)), H; simpl; rewrite Ha.
    + rewrite New_actions_app, H. simpl. now rewrite Ha.
Qed.

(** X15. [New] applies, after each option, every action staged so far.  For
    options that each stage one action this repetition is harmless: the
    result is that of applying each action once, in the order of the
    options, to the block that holds the command only; so the last value set
    for a field is the one the block keeps. *)
Theorem New_applies_each_action_once :
  forall (c : gcode.Gcoder) (actions : list configurationCallback),
    New (Some c) (map stage_one actions)
    = New_actions actions (bare_block c)
    /\ New_actions actions (bare_block c)
       = result_map (fun o => settle o (bare_block c))
                    (stage_all actions nothing_staged).
Proof.
  intros c actions. split.
  - unfold New. exact (New_options_staged actions [] c (bare_block c) eq_refl).
  - rewrite <- (settle_nothing (bare_block c)) at 1.
    apply New_actions_settle.
Qed.

(** ** Decimal texts *)

Lemma digits_value_uint : forall d acc,
  strconv.digits_value (NilEmpty.string_of_uint d) acc
  = Some (uint_value d acc).
Proof. induction d; intro acc; simpl; try reflexivity; apply IHd. Qed.

Lemma uint_value_pos : forall d acc,
  uint_value d (Z.pos acc) = Z.pos (Pos.of_uint_acc d acc).
Proof.
  induction d; intro acc; cbn [uint_value Pos.of_uint_acc];
    try reflexivity; rewrite <- IHd; f_equal; lia.
Qed.

Lemma uint_value_zero : forall d,
  uint_value d 0 = Z.of_N (Pos.of_uint d).
Proof.
  induction d; simpl; try reflexivity; try exact IHd;
    apply uint_value_pos.
Qed.

Lemma all_bytes_digits : forall d,
  all_bytes strconv.is_digit (NilEmpty.string_of_uint d) = true.
Proof. induction d; simpl; try reflexivity; exact IHd. Qed.

Lemma to_uint_nonnil : forall n, N.to_uint n <> Decimal.Nil.
Proof.
  intros [|p]; [discriminate|]. apply DecimalPos.Unsigned.to_uint_nonnil.
Qed.

Lemma FormatUint_text : forall n,
  strconv.FormatUint n = NilEmpty.string_of_uint (N.to_uint (Z.to_N n)).
Proof.
  intro n. unfold strconv.FormatUint, NilZero.string_of_uint.
  pose proof (to_uint_nonnil (Z.to_N n)) as H.
  destruct (N.to_uint (Z.to_N n)); [contradiction| | | | | | | | | |]; reflexivity.
Qed.

Lemma FormatUint_nonempty : forall n, strconv.FormatUint n <> EmptyString.
Proof.
  intro n. rewrite FormatUint_text.
  pose proof (to_uint_nonnil (Z.to_N n)) as H.
  destruct (N.to_uint (Z.to_N n)); [contradiction| | | | | | | | | |]; discriminate.
Qed.

Lemma FormatUint_digits : forall n,
  all_bytes strconv.is_digit (strconv.FormatUint n) = true.
Proof. intro n. rewrite FormatUint_text. apply all_bytes_digits. Qed.

(** The decimal text of a natural number reads back as that number. *)
Lemma ParseUint10_FormatUint : forall n,
  0 <= n -> strconv.ParseUint10 (strconv.FormatUint n) = Some n.
Proof.
  intros n Hn. unfold strconv.ParseUint10.
  pose proof (FormatUint_nonempty n) as Hne.
  destruct (strconv.FormatUint n) eqn:E; [contradiction|].
  rewrite <- E, FormatUint_text, digits_value_uint, uint_value_zero.
  change (Pos.of_uint (N.to_uint (Z.to_N n)))
    with (N.of_uint (N.to_uint (Z.to_N n))).
  rewrite DecimalN.Unsigned.of_to. f_equal. lia.
Qed.

(** The text of an int32 reads back as that int32. *)
Lemma ParseInt_FormatInt : forall v,
  - 2 ^ 31 <= v <= 2 ^ 31 - 1 ->
  strconv.ParseInt (strconv.FormatInt v) = Some v.
Proof.
  intros v Hv. unfold strconv.FormatInt.
  destruct (v <? 0) eqn:E.
  - apply Z.ltb_lt in E. unfold strconv.ParseInt.
    change (Ascii.eqb "-" "-") with true. change (Ascii.eqb "-" "+") with false.
    cbn [orb negb andb]. rewrite ParseUint10_FormatUint by lia.
    replace (2 ^ 31 <? - v) with false by (symmetry; apply Z.ltb_ge; lia).
    f_equal. lia.
  - apply Z.ltb_ge in E.
    apply ParseInt_digits; [apply ParseUint10_FormatUint; lia|lia].
Qed.

(** ** Exporting a block and parsing it again *)

Lemma valid_word_clean : forall c,
  gcode.IsValidWord c = true -> clean_byte c = true.
Proof. intros [[] [] [] [] [] [] [] []]; intro H; try reflexivity; discriminate. Qed.

Lemma digit_clean : forall c,
  strconv.is_digit c = true -> clean_byte c = true.
Proof. intros [[] [] [] [] [] [] [] []]; intro H; try reflexivity; discriminate. Qed.

Lemma clean_prepared : forall c, clean_byte c = true -> prepared_byte c = true.
Proof. intros [[] [] [] [] [] [] [] []]; intro H; try reflexivity; discriminate. Qed.

Lemma clean_not_space : forall c,
  clean_byte c = true -> strings.isSpace c = false.
Proof.
  intros c H. unfold clean_byte in H.
  now destruct (strings.isSpace c).
Qed.

Lemma clean_not_separator : forall c,
  clean_byte c = true -> Ascii.eqb c separator = false.
Proof. intros [[] [] [] [] [] [] [] []]; intro H; try reflexivity; discriminate. Qed.

Lemma FormatInt_clean : forall v,
  all_bytes clean_byte (strconv.FormatInt v) = true.
Proof.
  intro v. unfold strconv.FormatInt.
  assert (H : all_bytes clean_byte (strconv.FormatUint (- v)) = true
              /\ all_bytes clean_byte (strconv.FormatUint v) = true).
  { split; (eapply all_bytes_weaken; [apply digit_clean|apply FormatUint_digits]). }
  destruct H as [Hn Hp]. destruct (v <? 0); [simpl; exact Hn|exact Hp].
Qed.

Lemma FormatInt_nonempty : forall v, strconv.FormatInt v <> EmptyString.
Proof.
  intro v. unfold strconv.FormatInt.
  destruct (v <? 0); [discriminate|apply FormatUint_nonempty].
Qed.

Lemma plain_gcode_clean : forall g,
  plain_gcode g = true -> clean_token (gcode_token g) = true.
Proof.
  intros [w|[w v]|g|g|g] H; try discriminate; unfold clean_token; simpl in *.
  - now rewrite valid_word_clean.
  - apply andb_true_iff in H. destruct H as [H _].
    apply andb_true_iff in H. destruct H as [H _].
    now rewrite valid_word_clean, FormatInt_clean.
Qed.

(** With the package's own factory a plain gcode is read back from its
    token. *)
Lemma sniff_plain : forall g,
  plain_gcode g = true ->
  sniff_spec gcodefactory.GcodeFactory (gcode_token g) = Ok g.
Proof.
  intros [w|[w v]|g|g|g] H; try discriminate; simpl in *.
  - now rewrite H.
  - apply andb_true_iff in H. destruct H as [H Hhi].
    apply andb_true_iff in H. destruct H as [Hw Hlo].
    apply Z.leb_le in Hlo, Hhi.
    pose proof (FormatInt_nonempty v) as Hne.
    destruct (strconv.FormatInt v) eqn:E; [contradiction|].
    rewrite <- E, ParseInt_FormatInt by lia. simpl.
    unfold gcodefactory.new_addressable. now rewrite Hw.
Qed.

Lemma sniff_all_plain : forall gs,
  forallb plain_gcode gs = true ->
  sniff_all gcodefactory.GcodeFactory (map gcode_token gs) = Ok gs.
Proof.
  induction gs as [|g gs IH]; simpl; intro H; [reflexivity|].
  apply andb_true_iff in H. destruct H as [Hg Hgs].
  now rewrite (sniff_plain g Hg), (IH Hgs).
Qed.

Lemma tokens_of_texts : forall ts,
  tokens_of (map token_text ts) = ts.
Proof.
  induction ts as [|[w r] ts IH]; simpl; [reflexivity|now rewrite IH].
Qed.

Lemma string_app_cons : forall c (a b : string),
  (String c a ++ b = String c (a ++ b))%string.
Proof. reflexivity. Qed.

Lemma string_app_nil_r : forall s : string, (s ++ EmptyString)%string = s.
Proof. induction s as [|c s IH]; simpl; [reflexivity|now rewrite IH]. Qed.

Lemma tight_clean_app : forall x t prev,
  all_bytes clean_byte x = true -> x <> EmptyString ->
  tight strings.isSpace (x ++ t) prev = tight strings.isSpace t false.
Proof.
  induction x as [|c x IH]; intros t prev Hx Hne; [contradiction|].
  simpl in Hx. apply andb_true_iff in Hx. destruct Hx as [Hc Hx].
  rewrite string_app_cons. cbn [tight]. rewrite (clean_not_space c Hc).
  destruct x as [|d x]; [reflexivity|].
  apply IH; [exact Hx|discriminate].
Qed.

Lemma all_bytes_app : forall p (a b : string),
  all_bytes p (a ++ b) = all_bytes p a && all_bytes p b.
Proof.
  induction a as [|c a IH]; intro b; simpl; [reflexivity|].
  now rewrite IH, andb_assoc.
Qed.

Lemma split_clean_app : forall x t,
  all_bytes clean_byte x = true ->
  split_spaces (x ++ String separator t) = x :: split_spaces t.
Proof.
  induction x as [|c x IH]; intros t Hx; [reflexivity|].
  simpl in Hx. apply andb_true_iff in Hx. destruct Hx as [Hc Hx].
  rewrite string_app_cons. cbn [split_spaces].
  now rewrite (clean_not_separator c Hc), (IH t Hx).
Qed.

Lemma split_clean : forall x,
  all_bytes clean_byte x = true -> split_spaces x = [x].
Proof.
  induction x as [|c x IH]; intro Hx; [reflexivity|].
  simpl in Hx. apply andb_true_iff in Hx. destruct Hx as [Hc Hx].
  cbn [split_spaces]. now rewrite (clean_not_separator c Hc), (IH Hx).
Qed.

Lemma token_text_clean : forall t,
  clean_token t = true ->
  all_bytes clean_byte (token_text t) = true /\ token_text t <> EmptyString.
Proof.
  intros [w r] H. unfold clean_token in H. simpl in *.
  split; [exact H|discriminate].
Qed.

(** The join of clean tokens: a line that is already prepared and that
    splits back into the tokens. *)
Lemma joined_line : forall t ts,
  forallb clean_token (t :: ts) = true ->
  let line := String.concat " " (map token_text (t :: ts)) in
  tight strings.isSpace line true = true
  /\ all_bytes prepared_byte line = true
  /\ split_spaces line = map token_text (t :: ts).
Proof.
  intros t ts. revert t.
  induction ts as [|u ts IH]; intros t H line; subst line.
  - simpl in H. rewrite andb_true_r in H.
    destruct (token_text_clean t H) as [Hc Hne].
    cbn [map String.concat]. split; [|split].
    + pose proof (tight_clean_app (token_text t) EmptyString true Hc Hne)
        as Hx.
      rewrite string_app_nil_r in Hx. exact Hx.
    + eapply all_bytes_weaken; [apply clean_prepared|exact Hc].
    + now apply split_clean.
  - cbn [forallb] in H. apply andb_true_iff in H. destruct H as [Ht Hrest].
    destruct (token_text_clean t Ht) as [Hc Hne].
    specialize (IH u Hrest). cbv zeta in IH. destruct IH as (IH1 & IH2 & IH3).
    change (String.concat " " (map token_text (t :: u :: ts)))
      with (token_text t ++ String separator
              (String.concat " " (map token_text (u :: ts))))%string.
    split; [|split].
    + rewrite tight_clean_app by assumption. exact IH1.
    + rewrite all_bytes_app. apply andb_true_iff. split.
      * eapply all_bytes_weaken; [apply clean_prepared|exact Hc].
      * simpl. exact IH2.
    + rewrite split_clean_app by assumption. now rewrite IH3.
Qed.

Lemma tight_first : forall p s,
  tight p s true = true -> first_not p s = true.
Proof.
  intros p [|c s] H; [discriminate|].
  simpl in *. now destruct (p c).
Qed.

Lemma tight_last : forall p s prev,
  tight p s prev = true -> s <> EmptyString -> last_not p s = true.
Proof.
  intros p s. induction s as [|c s IH]; intros prev H Hne; [contradiction|].
  destruct s as [|d s].
  - simpl in *. destruct (p c); [|reflexivity].
    apply andb_true_iff in H. destruct H; discriminate.
  - rewrite last_not_cons. cbn [tight] in H.
    destruct (p c).
    + apply andb_true_iff in H. destruct H as [_ H].
      eapply IH; [exact H|discriminate].
    + eapply IH; [exact H|discriminate].
Qed.

(** A line without leading, trailing or doubled white space, without special
    byte and lower-case letter, is its own prepared line. *)
Lemma prepareSourceToParse_fixed : forall s,
  tight strings.isSpace s true = true ->
  all_bytes prepared_byte s = true ->
  prepareSourceToParse s = s.
Proof.
  intros s Ht Hb.
  pose proof (tight_first _ _ Ht) as Hf.
  assert (Hne : s <> EmptyString) by (destruct s; [discriminate Hf|discriminate]).
  pose proof (tight_last _ _ _ Ht Hne) as Hl.
  unfold prepareSourceToParse, removeSpecialChars, removeDuplicateSpaces,
    strings.TrimSpace.
  rewrite (TrimLeft_fixed s Hf), (TrimRight_fixed s Hl).
  rewrite ToUpper_fixed.
  - destruct s as [|c q]; [contradiction|].
    assert (Hc : regexp.is_class_s c = false).
    { simpl in Hf. destruct (regexp.is_class_s c) eqn:E; [|reflexivity].
      rewrite (class_s_isSpace c E) in Hf. discriminate. }
    assert (Hs : tight regexp.is_class_s (String c q) true = true).
    { eapply tight_subclass; [apply class_s_isSpace| |exact Ht]. auto. }
    rewrite (proj1 (replace_runs_fixed (String c q))).
    + apply replace_controls_fixed.
      eapply all_bytes_weaken; [|exact Hb].
      intros x Hx. unfold prepared_byte in Hx. now destruct (is_special x).
    + rewrite tight_outside by exact Hc.
      rewrite tight_outside in Hs by exact Hc. exact Hs.
  - eapply all_bytes_weaken; [|exact Hb].
    intros x Hx. unfold prepared_byte in Hx.
    destruct (is_special x); [discriminate|exact Hx].
Qed.

Lemma GcoderString_token : forall g,
  gcode.GcoderString g = token_text (gcode_token g).
Proof. intros [w|g|g|g|g]; reflexivity. Qed.

Lemma FormatInt_nonneg : forall v,
  0 <= v -> strconv.FormatInt v = strconv.FormatUint v.
Proof.
  intros v Hv. unfold strconv.FormatInt.
  now replace (v <? 0) with false by (symmetry; apply Z.ltb_ge; lia).
Qed.

Lemma plain_int32 : forall w v,
  gcode.IsValidWord w = true -> - 2 ^ 31 <= v <= 2 ^ 31 - 1 ->
  plain_gcode (gcode.AddressableInt32 (gcode.mkAddressable w v)) = true.
Proof.
  intros w v Hw Hv. unfold plain_gcode. cbn [gcode.Word gcode.Address].
  rewrite Hw. apply andb_true_iff. split; [|apply Z.leb_le; lia].
  apply Z.leb_le. lia.
Qed.

(** The sections of a plain block are the texts of [gcodes_of], which are
    plain gcodes that [Parse] classifies back into the block. *)
Lemma plain_sections_gcodes : forall ln cmd ps h,
  plain_sections ln cmd ps = true ->
  sections_spec (mkBlock ln cmd ps None EmptyString h
                         (Some gcodefactory.GcodeFactory))
  = map token_text (map gcode_token (gcodes_of ln cmd ps))
  /\ forallb plain_gcode (gcodes_of ln cmd ps) = true
  /\ gcodes_of ln cmd ps <> []
  /\ Parse_assemble (gcodes_of ln cmd ps) h gcodefactory.GcodeFactory
     = Done (Ok (mkBlock ln cmd ps None EmptyString h
                         (Some gcodefactory.GcodeFactory))).
Proof.
  intros ln cmd ps h H. unfold plain_sections in H.
  assert (Hps : map gcode.GcoderString ps
                = map token_text (map gcode_token ps)).
  { rewrite map_map. apply map_ext. apply GcoderString_token. }
  destruct ln as [[w u]|], cmd as [c|]; try discriminate.
  - apply andb_true_iff in H. destruct H as [H Hp].
    apply andb_true_iff in H. destruct H as [Hl Hc].
    unfold plain_lineNumber in Hl. simpl in Hl.
    apply andb_true_iff in Hl. destruct Hl as [Hl Hhi].
    apply andb_true_iff in Hl. destruct Hl as [Hw Hlo].
    apply Ascii.eqb_eq in Hw. subst w. apply Z.leb_le in Hlo, Hhi.
    split; [|split; [|split]].
    + unfold sections_spec, gcodes_of. simpl.
      unfold gcode.Uint32String, gcode.AddressableString_, token_text. simpl.
      now rewrite FormatInt_nonneg, GcoderString_token, Hps by lia.
    + unfold gcodes_of. cbn [app forallb gcode.Word gcode.Address].
      rewrite plain_int32, Hc, Hp by (try reflexivity; lia). reflexivity.
    + discriminate.
    + unfold gcodes_of. cbn [app]. rewrite Parse_assemble_cons. simpl.
      unfold convertLineNumber. simpl. unfold to_uint32.
      rewrite Z.mod_small by lia. reflexivity.
  - apply andb_true_iff in H. destruct H as [Hl Hp].
    destruct ps; [|discriminate].
    unfold plain_lineNumber in Hl. simpl in Hl.
    apply andb_true_iff in Hl. destruct Hl as [Hl Hhi].
    apply andb_true_iff in Hl. destruct Hl as [Hw Hlo].
    apply Ascii.eqb_eq in Hw. subst w. apply Z.leb_le in Hlo, Hhi.
    split; [|split; [|split]].
    + unfold sections_spec, gcodes_of. simpl.
      unfold gcode.Uint32String, gcode.AddressableString_, token_text. simpl.
      now rewrite FormatInt_nonneg by lia.
    + unfold gcodes_of. cbn [app forallb gcode.Word gcode.Address].
      rewrite plain_int32 by (try reflexivity; lia). reflexivity.
    + discriminate.
    + unfold gcodes_of. cbn [app]. rewrite Parse_assemble_cons. simpl.
      unfold convertLineNumber. simpl. unfold to_uint32.
      rewrite Z.mod_small by lia. reflexivity.
  - apply andb_true_iff in H. destruct H as [H Hp].
    apply andb_true_iff in H. destruct H as [Hn Hc].
    split; [|split; [|split]].
    + unfold sections_spec, gcodes_of. simpl.
      now rewrite GcoderString_token, Hps.
    + unfold gcodes_of. simpl. now rewrite Hc, Hp.
    + discriminate.
    + unfold gcodes_of. cbn [app]. rewrite Parse_assemble_cons.
      destruct (Ascii.eqb (gcode.GcoderWord c) "N"); [discriminate|reflexivity].
Qed.

(** The sections of a plain block, joined by the separator, parse back into
    the block. *)
Lemma Parse_sections_plain : forall ln cmd ps h,
  plain_sections ln cmd ps = true ->
  Parse (String.concat BLOCK_SEPARATOR
           (sections_spec (mkBlock ln cmd ps None EmptyString h
                                   (Some gcodefactory.GcodeFactory)))) h None
  = Done (Ok (mkBlock ln cmd ps None EmptyString h
                      (Some gcodefactory.GcodeFactory))).
Proof.
  intros ln cmd ps h H.
  destruct (plain_sections_gcodes ln cmd ps h H) as (Hs & Hp & Hne & Ha).
  rewrite Hs.
  destruct (gcodes_of ln cmd ps) as [|g gs] eqn:Hg; [contradiction|].
  assert (Hclean : forallb clean_token (map gcode_token (g :: gs)) = true).
  { rewrite forallb_forall. intros t Ht. apply in_map_iff in Ht.
    destruct Ht as (x & <- & Hx). apply plain_gcode_clean.
    rewrite forallb_forall in Hp. now apply Hp. }
  change (map gcode_token (g :: gs))
    with (gcode_token g :: map gcode_token gs) in Hclean |- *.
  pose proof (joined_line _ _ Hclean) as Hj. cbv zeta in Hj.
  destruct Hj as (Ht & Hb & Hsplit).
  rewrite Parse_refines_spec. unfold Parse_spec, tokens_spec.
  change BLOCK_SEPARATOR with " "%string.
  rewrite (prepareSourceToParse_fixed _ Ht Hb), Hsplit, tokens_of_texts.
  change (gcode_token g :: map gcode_token gs) with (map gcode_token (g :: gs)).
  cbn [factory_or_default]. rewrite (sniff_all_plain _ Hp). exact Ha.
Qed.

(** X16. Round trip.  Take a block of plain gcodes (valid words, no address
    or an int32 address) with the package's own factory, no checksum and no
    comment, of one of the three shapes [Parse] and [New] build: a line
    number, a command and parameters; a command and parameters, the command
    not of word [N]; a line number alone, without command and without
    parameter.  The line number has word [N] and a value an int32 holds.
    Parsing the line [ToLine] exports gives that very block back.  (A block
    with a line number, no command and parameters is left out: its line
    parses with the first parameter as command.) *)
Theorem Parse_ToLine_round_trip :
  forall (ln : option (gcode.AddresableGcoder uint32))
         (cmd : option gcode.Gcoder) (ps : list gcode.Gcoder)
         (h : option hash.Hash),
    plain_sections ln cmd ps = true ->
    Parse (ToLine (mkBlock ln cmd ps None EmptyString h
                           (Some gcodefactory.GcodeFactory))) h None
    = Done (Ok (mkBlock ln cmd ps None EmptyString h
                        (Some gcodefactory.GcodeFactory))).
Proof.
  intros ln cmd ps h H.
  rewrite ToLine_sections. exact (Parse_sections_plain ln cmd ps h H).
Qed.

Lemma Parse_ToLine_round_trip_witness :
  ToLine (mkBlock (Some (gcode.mkAddressable "N"%char 4)) (Some G92) [E0]
                  None EmptyString None (Some gcodefactory.GcodeFactory))
  = "N4 G92 E0"%string
  /\ Parse "N4 G92 E0" None None
     = Done (Ok (mkBlock (Some (gcode.mkAddressable "N"%char 4)) (Some G92)
                         [E0] None EmptyString None
                         (Some gcodefactory.GcodeFactory))).
Proof.
  split; [reflexivity|].
  exact (Parse_ToLine_round_trip (Some (gcode.mkAddressable "N"%char 4))
           (Some G92) [E0] None eq_refl).
Defined.

(** The shape left out of the round trip: with a line number, no command and
    parameters, the exported line parses with the first parameter as
    command. *)
Lemma Parse_ToLine_without_command : forall l p ps h,
  plain_lineNumber l = true -> plain_gcode p = true ->
  forallb plain_gcode ps = true ->
  Parse (ToLine (mkBlock (Some l) None (p :: ps) None EmptyString h
                         (Some gcodefactory.GcodeFactory))) h None
  = Done (Ok (mkBlock (Some l) (Some p) ps None EmptyString h
                      (Some gcodefactory.GcodeFactory))).
Proof.
  intros l p ps h Hl Hp Hps.
  assert (H : plain_sections (Some l) (Some p) ps = true).
  { unfold plain_sections. now rewrite Hl, Hp, Hps. }
  rewrite <- (Parse_sections_plain (Some l) (Some p) ps h H).
  rewrite ToLine_sections. reflexivity.
Qed.

(** ** The check section is not read back *)

Lemma concat_snoc : forall sep x l y,
  String.concat sep ((x :: l) ++ [y])
  = (String.concat sep (x :: l) ++ sep ++ y)%string.
Proof.
  intros sep x l. revert x.
  induction l as [|z l IH]; intros x y; [reflexivity|].
  change (String.concat sep ((x :: z :: l) ++ [y]))
    with (x ++ sep ++ String.concat sep ((z :: l) ++ [y]))%string.
  rewrite IH.
  change (String.concat sep (x :: z :: l))
    with (x ++ sep ++ String.concat sep (z :: l))%string.
  now rewrite !string_app_assoc.
Qed.

(** X17. An exported check section is parsed as one more parameter.  For a
    plain block with a command and a stored checksum of word [*], parsing
    the line of [ToLineWithCheck] gives the block whose parameters end with
    the int32 gcode [*] of the same value, and whose checksum is nil. *)
Theorem Parse_ToLineWithCheck_folds_checksum :
  forall (ln : option (gcode.AddresableGcoder uint32)) (c : gcode.Gcoder)
         (ps : list gcode.Gcoder) (h : option hash.Hash) (v : Z),
    plain_sections ln (Some c) ps = true ->
    0 <= v <= 2 ^ 31 - 1 ->
    Parse (ToLineWithCheck
             (mkBlock ln (Some c) ps (Some (gcode.mkAddressable "*"%char v))
                      EmptyString h (Some gcodefactory.GcodeFactory))) h None
    = Done (Ok (mkBlock ln (Some c)
                        (ps ++ [gcode.AddressableInt32
                                  (gcode.mkAddressable "*"%char v)])
                        None EmptyString h (Some gcodefactory.GcodeFactory))).
Proof.
  intros ln c ps h v H Hv.
  set (g := gcode.AddressableInt32 (gcode.mkAddressable "*"%char v)).
  assert (Hg : plain_gcode g = true) by (apply plain_int32; [reflexivity|lia]).
  assert (H' : plain_sections ln (Some c) (ps ++ [g]) = true).
  { unfold plain_sections in *. rewrite forallb_app. cbn [forallb].
    rewrite Hg. cbn [andb].
    destruct ln as [l|]; apply andb_true_iff in H; destruct H as [H ->];
      now rewrite H. }
  rewrite <- (Parse_sections_plain ln (Some c) (ps ++ [g]) h H'). f_equal.
  unfold ToLineWithCheck. cbn [checksum].
  rewrite ToLine_sections. unfold strings.Join. cbn [fold_left].
  unfold sections_spec. cbn [lineNumber command parameters].
  rewrite map_app. cbn [map].
  assert (Ht : gcode.GcoderString g
               = gcode.Uint32String (gcode.mkAddressable "*"%char v)).
  { unfold g, gcode.GcoderString, gcode.Uint32String, gcode.AddressableString_.
    cbn [gcode.Word gcode.Address]. now rewrite FormatInt_nonneg by lia. }
  rewrite Ht.
  destruct ln as [l|]; cbn [app].
  - change (gcode.Uint32String l :: gcode.GcoderString c
              :: map gcode.GcoderString ps ++ [gcode.Uint32String (gcode.mkAddressable "*"%char v)])
      with ((gcode.Uint32String l :: gcode.GcoderString c
               :: map gcode.GcoderString ps)
              ++ [gcode.Uint32String (gcode.mkAddressable "*"%char v)]).
    now rewrite concat_snoc.
  - change (gcode.GcoderString c
              :: map gcode.GcoderString ps ++ [gcode.Uint32String (gcode.mkAddressable "*"%char v)])
      with ((gcode.GcoderString c :: map gcode.GcoderString ps)
              ++ [gcode.Uint32String (gcode.mkAddressable "*"%char v)]).
    now rewrite concat_snoc.
Qed.

Lemma Parse_ToLineWithCheck_folds_checksum_witness :
  ToLineWithCheck
    (mkBlock (Some (gcode.mkAddressable "N"%char 4)) (Some G92) [E0]
             (Some star67) EmptyString None (Some gcodefactory.GcodeFactory))
  = "N4 G92 E0 *67"%string
  /\ Parse "N4 G92 E0 *67" None None
     = Done (Ok (mkBlock (Some (gcode.mkAddressable "N"%char 4)) (Some G92)
                         [E0; gcode.AddressableInt32 star67]
                         None EmptyString None
                         (Some gcodefactory.GcodeFactory))).
Proof.
  split; [reflexivity|].
  apply (Parse_ToLineWithCheck_folds_checksum
           (Some (gcode.mkAddressable "N"%char 4)) G92 [E0] None 67);
    [reflexivity|lia].
Defined.

(** ** Tokens and blank lines *)

Lemma split_fields_bytes : forall p s,
  all_bytes p s = true ->
  Forall (fun f => all_bytes p f = true) (split_spaces s).
Proof.
  intros p s. induction s as [|c s IH]; intro H.
  - repeat constructor.
  - simpl in H. apply andb_true_iff in H. destruct H as [Hc Hs].
    specialize (IH Hs). cbn [split_spaces].
    destruct (Ascii.eqb c separator).
    + constructor; [reflexivity|exact IH].
    + destruct (split_spaces s) as [|t ts].
      * constructor; [simpl; now rewrite Hc|constructor].
      * inversion IH; subst. constructor; [simpl; now rewrite Hc|assumption].
Qed.

Lemma split_fields_no_separator : forall s,
  Forall (fun f => all_bytes (fun c => negb (is_separator c)) f = true)
         (split_spaces s).
Proof.
  induction s as [|c s IH].
  - repeat constructor.
  - cbn [split_spaces]. destruct (Ascii.eqb c separator) eqn:E.
    + constructor; [reflexivity|exact IH].
    + destruct (split_spaces s) as [|t ts].
      * constructor; [|constructor]. simpl. unfold is_separator. now rewrite E.
      * inversion IH; subst. constructor; [|assumption].
        simpl. unfold is_separator at 1. now rewrite E.
Qed.

Lemma tokens_of_bytes : forall p fields,
  Forall (fun f => all_bytes p f = true) fields ->
  forallb (fun t => all_bytes p (token_text t)) (tokens_of fields) = true.
Proof.
  intros p fields H. induction H as [|f fields Hf _ IH]; [reflexivity|].
  destruct f as [|w r]; [exact IH|].
  cbn [tokens_of forallb]. unfold token_text at 1. cbn [fst snd].
  now rewrite Hf, IH.
Qed.

Lemma Forall_both : forall (A : Type) (P Q : A -> Prop) l,
  Forall P l -> Forall Q l -> Forall (fun x => P x /\ Q x) l.
Proof.
  intros A P Q l HP. induction HP; intro HQ; inversion HQ; subst;
    constructor; auto.
Qed.

Lemma Parse_tokens_bytes : forall s,
  forallb (fun t => all_bytes token_byte (token_text t))
          (tokens_spec (prepareSourceToParse s)) = true.
Proof.
  intro s. unfold tokens_spec. apply tokens_of_bytes.
  pose proof (split_fields_bytes prepared_byte (prepareSourceToParse s)
                (prepared_bytes_of (strings.TrimSpace s))) as H1.
  pose proof (split_fields_no_separator (prepareSourceToParse s)) as H2.
  pose proof (Forall_both _ _ _ _ H1 H2) as H.
  eapply Forall_impl; [|exact H].
  intros f [Ha Hb]. clear - Ha Hb.
  induction f as [|c f IH]; [reflexivity|].
  simpl in *. apply andb_true_iff in Ha, Hb.
  destruct Ha as [Ha1 Ha2], Hb as [Hb1 Hb2].
  unfold token_byte at 1. now rewrite Ha1, Hb1, IH.
Qed.

Lemma sniff_default_string : forall p w r g,
  all_bytes p r = true ->
  sniff_spec gcodefactory.GcodeFactory (w, r) = Ok g ->
  string_address_bytes p g = true.
Proof.
  intros p w r g Hr. unfold sniff_spec.
  destruct r as [|c r].
  - simpl. destruct (gcode.IsValidWord w); [|discriminate].
    intro H. injection H as <-. reflexivity.
  - destruct (strconv.ParseInt (String c r)) as [v|].
    + simpl. unfold gcodefactory.new_addressable.
      destruct (gcode.IsValidWord w); simpl; [|discriminate].
      intro H. injection H as <-. reflexivity.
    + destruct (strconv.ParseFloat (String c r)) as [x|]; simpl.
      * unfold gcodefactory.new_addressable.
        destruct (gcode.IsValidWord w); simpl; [|discriminate].
        intro H. injection H as <-. reflexivity.
      * destruct (gcode.IsValidWord w); [|discriminate].
        destruct (gcode.IsAddressStringValid (String c r)); [discriminate|].
        simpl. intro H. injection H as <-. exact Hr.
Qed.

Lemma sniff_all_default_string : forall p ts gs,
  forallb (fun t => all_bytes p (token_text t)) ts = true ->
  sniff_all gcodefactory.GcodeFactory ts = Ok gs ->
  forallb (string_address_bytes p) gs = true.
Proof.
  intros p ts. induction ts as [|[w r] ts IH]; intros gs Ht H.
  - simpl in H. injection H as <-. reflexivity.
  - cbn [forallb] in Ht. apply andb_true_iff in Ht. destruct Ht as [Ht Hts].
    unfold token_text in Ht. cbn [fst snd all_bytes] in Ht.
    apply andb_true_iff in Ht. destruct Ht as [_ Hr].
    cbn [sniff_all] in H.
    destruct (sniff_spec gcodefactory.GcodeFactory (w, r)) as [g|] eqn:Eg;
      [|discriminate].
    destruct (sniff_all gcodefactory.GcodeFactory ts) as [gs'|];
      [|discriminate].
    simpl in H. injection H as <-. cbn [forallb].
    now rewrite (sniff_default_string p w r g Hr Eg), (IH gs' Hts eq_refl).
Qed.

(** X18. With the package's own factory (modelled from the spec), a string
    address of a parsed block never holds a space, tab, newline, carriage
    return or lower-case ASCII letter: [Parse] upper-cases the text between
    the quotes, and a quoted string with white space inside is never read
    as one address. *)
Theorem Parse_string_address_bytes :
  forall (s : string) (h : option hash.Hash) (b : Block),
    Parse s h None = Done (Ok b) ->
    forallb (string_address_bytes token_byte) (gcodes_after_lineNumber b)
    = true.
Proof.
  intros s h b H.
  destruct (Parse_success _ _ _ _ H) as (g0 & rest & Hg & Ha).
  apply Parse_gcodes_break in Hg.
  apply (sniff_all_default_string token_byte _ _ (Parse_tokens_bytes s))
    in Hg.
  cbn [forallb] in Hg. apply andb_true_iff in Hg. destruct Hg as [H0 Hr].
  rewrite Parse_assemble_cons in Ha. unfold gcodes_after_lineNumber.
  destruct (Ascii.eqb _ _); [destruct (asAddresableInt32 g0)|];
    try discriminate; injection Ha as <-; cbn [command parameters].
  - destruct rest as [|g1 rest]; [reflexivity|exact Hr].
  - cbn [app forallb]. now rewrite H0, Hr.
Qed.

Lemma Parse_string_address_bytes_witness :
  Parse (String "m" (String gcode.quote ("say hi" ++ String gcode.quote " e2")))
        None None
  = Done (Err (AddressStringQuoteError (String gcode.quote "SAY")))
  /\ Parse (String "m" (String gcode.quote ("hi" ++ String gcode.quote " e2")))
           None None
     = Done (Ok (mkBlock None
                   (Some (gcode.AddressableString
                            (gcode.mkAddressable "M"%char
                               (String gcode.quote
                                       ("HI" ++ String gcode.quote EmptyString)))))
                   [gcode.AddressableInt32 (gcode.mkAddressable "E"%char 2)]
                   None EmptyString None (Some gcodefactory.GcodeFactory)))
  /\ all_bytes token_byte
               (String gcode.quote ("HI" ++ String gcode.quote EmptyString))
     = true.
Proof.
  split; [reflexivity|]. split; [reflexivity|].
  pose proof (Parse_string_address_bytes
                (String "m" (String gcode.quote
                                    ("hi" ++ String gcode.quote " e2")))
                None _ eq_refl) as H.
  vm_compute in H. vm_compute. exact H.
Defined.

Lemma prepared_first : forall s,
  first_not strings.isSpace (strings.TrimSpace s) = true ->
  first_not strings.isSpace (prepareSourceToParse s) = true.
Proof.
  intros s H.
  unfold prepareSourceToParse, removeSpecialChars, removeDuplicateSpaces.
  rewrite first_not_replace_controls. apply first_not_replace_runs.
  now rewrite first_not_ToUpper by apply upper_isSpace.
Qed.

Lemma tokens_nonempty : forall s,
  prepareSourceToParse s <> EmptyString ->
  tokens_spec (prepareSourceToParse s) <> [].
Proof.
  intros s Hne.
  destruct (prepared_tight s) as [H|H]; [contradiction|].
  assert (Ht : tight is_separator (prepareSourceToParse s) true = true).
  { eapply tight_subclass; [apply separator_class_s| |exact H]. auto. }
  apply tight_fields in Ht. unfold tokens_spec.
  destruct (split_spaces _) as [|f0 fields]; [contradiction|].
  destruct Ht as [H0 _]. specialize (H0 eq_refl).
  destruct f0; [contradiction|]. discriminate.
Qed.

(** X19. On an ASCII line [Parse] panics exactly when the line is blank:
    when the line is empty or holds white space only, no token is read and
    the call panics with an index out of range; on any other ASCII line it
    returns, a block or an error, whatever the hash engine and the factory.
    (On a line with a byte from 0x80 on, Go's [strings.TrimSpace] and
    [strings.ToUpper] work on runes, which the embedding does not follow.) *)
Theorem Parse_panics_iff_blank :
  forall (s : string) (h : option hash.Hash)
         (f : option gcode.GcoderFactory),
    is_ascii s = true ->
    match strings.TrimSpace s with
    | EmptyString => Parse s h f = Panic IndexOutOfRange
    | _ => exists r, Parse s h f = Done r
    end.
Proof.
  intros s h f _.
  pose proof (Parse_panics_iff_no_token s h f) as H.
  destruct (strings.TrimSpace s) as [|c t] eqn:E.
  - unfold prepareSourceToParse in H. rewrite E in H. exact H.
  - assert (Hne : prepareSourceToParse s <> EmptyString).
    { destruct (TrimSpace_ends s) as [H0|[Hf _]];
        [rewrite E in H0; discriminate|].
      apply prepared_first in Hf.
      destruct (prepareSourceToParse s); [discriminate|discriminate]. }
    apply tokens_nonempty in Hne.
    destruct (tokens_spec (prepareSourceToParse s)); [contradiction|exact H].
Qed.

Lemma Parse_panics_iff_blank_witness :
  is_ascii (String " " (String (ascii_of_nat 9) " ")) = true
  /\ Parse (String " " (String (ascii_of_nat 9) " ")) None None
     = Panic IndexOutOfRange.
Proof.
  split; [reflexivity|].
  exact (Parse_panics_iff_blank (String " " (String (ascii_of_nat 9) " "))
           None None eq_refl).
Defined.

(** ** The length of the prepared line *)

Lemma TrimLeft_length : forall s,
  (String.length (strings.TrimLeft s) <= String.length s)%nat.
Proof.
  induction s as [|c s IH]; simpl; [lia|].
  destruct (strings.isSpace c); simpl; lia.
Qed.

Lemma TrimRight_length : forall s,
  (String.length (strings.TrimRight s) <= String.length s)%nat.
Proof.
  induction s as [|c s IH]; simpl; [lia|].
  destruct (strings.TrimRight s); [destruct (strings.isSpace c)|];
    simpl in *; lia.
Qed.

Lemma ToUpper_length : forall s,
  String.length (strings.ToUpper s) = String.length s.
Proof. induction s as [|c s IH]; simpl; [reflexivity|now rewrite IH]. Qed.

Lemma replace_controls_length : forall s,
  String.length (regexp.replace_controls s) = String.length s.
Proof. induction s as [|c s IH]; simpl; [reflexivity|now rewrite IH]. Qed.

Lemma replace_runs_length : forall s r,
  (String.length (regexp.replace_runs s r)
   <= String.length s + match r with regexp.NoRun => 0 | _ => 1 end)%nat.
Proof.
  induction s as [|c s IH]; intro r.
  - destruct r; simpl; lia.
  - cbn [regexp.replace_runs]. destruct (regexp.is_class_s c).
    + specialize (IH (match r with regexp.NoRun => regexp.One c | _ => regexp.Many end)).
      destruct r; simpl in *; lia.
    + specialize (IH regexp.NoRun). destruct r; simpl in *; lia.
Qed.

(** X20. For an ASCII source line the prepared line is never longer than
    the source: preparing only trims, replaces bytes one for one, and
    shortens runs of white space.  (On a line with a byte from 0x80 on, Go's
    [strings.ToUpper] may lengthen the line, which the embedding does not
    follow.) *)
Theorem prepareSourceToParse_length :
  forall s : string,
    is_ascii s = true ->
    (String.length (prepareSourceToParse s) <= String.length s)%nat.
Proof.
  intros s _. unfold prepareSourceToParse, removeSpecialChars,
    removeDuplicateSpaces, strings.TrimSpace.
  rewrite replace_controls_length.
  pose proof (replace_runs_length
                (strings.ToUpper (strings.TrimRight (strings.TrimLeft s)))
                regexp.NoRun) as H1.
  rewrite ToUpper_length in H1.
  pose proof (TrimRight_length (strings.TrimLeft s)).
  pose proof (TrimLeft_length s). lia.
Qed.

Lemma prepareSourceToParse_length_witness :
  is_ascii "  g1   x2 " = true
  /\ prepareSourceToParse "  g1   x2 " = "G1 X2"%string
  /\ (String.length (prepareSourceToParse "  g1   x2 ")
      <= String.length "  g1   x2 ")%nat.
Proof.
  split; [reflexivity|]. split; [reflexivity|].
  exact (prepareSourceToParse_length "  g1   x2 " eq_refl).
Defined.
